(** * LinguaWave: translation and chunked speech synthesis

    A shallow embedding of the pipeline stages of [audio_translator.py]
    (command-line tool) and [main.py] (HTTP service):

    - [translate_text] / [translate_text_async]: sentence-wise translation
      with a per-sentence fallback;
    - [text_to_speech] / [text_to_speech_async]: fixed-size chunking,
      one temporary file per chunk, concatenation and cleanup;
    - the upload validation and the handlers of the two POST endpoints;
    - [main], the entry point of the command-line tool.

    Python [str] values are modelled as [string]; a character is a code
    point below 256.  Logging and the pacing [time.sleep] have no
    observable effect on the values studied here and are left out.  The
    file system is a finite map from absolute, normalized names to
    contents: two spellings of one file ([temp_0.mp3], [./temp_0.mp3])
    are one entry.  Names are normalized as [os.path.normpath] does (a
    [..] cancels the component before it); directories and links are
    not modelled.  What the environment decides
    (whether a backend fails and what it leaves behind, whether a rename
    is accepted, what the shell does with a command line that is not
    made of plain words) is a field of the records of collaborators. *)

From Stdlib Require Import Ascii String.
From stdpp Require Import base numbers list strings gmap pretty.

Set Warnings "-abstract-large-number".

(** ** Python string primitives *)

Module Py.

(** [str.isspace] on one character, for code points below 256. *)
Definition isspace (c : ascii) : bool :=
  let n := N_of_ascii c in
  ((9 <=? n) && (n <=? 13) || (28 <=? n) && (n <=? 32)
   || (n =? 133) || (n =? 160))%N.

(** [s.lstrip()], [s.rstrip()] and [s.strip()] without argument. *)
Fixpoint lstrip (s : string) : string :=
  match s with
  | "" => ""
  | String c s' => if isspace c then lstrip s' else s
  end.

Fixpoint rstrip (s : string) : string :=
  match s with
  | "" => ""
  | String c s' =>
      match rstrip s' with
      | "" => if isspace c then "" else String c ""
      | r => String c r
      end
  end.

Definition strip (s : string) : string := rstrip (lstrip s).

(** Truth value of a string in a condition: non-empty. *)
Definition truthy (s : string) : bool :=
  match s with "" => false | String _ _ => true end.

(** [s.startswith(p)]. *)
Definition startswith (s p : string) : bool := String.prefix p s.

(** [s[i:j]] for [0 <= i <= j]; indices past the end are clamped. *)
Definition slice (s : string) (i j : nat) : string := substring i (j - i) s.

(** [range(0, stop, step)] for a positive [step]: the multiples of
    [step] below [stop].  (A zero step is a [ValueError] in Python; the
    source only ever passes the constant 5000.) *)
Definition range_step (stop step : nat) : list nat :=
  (λ k, k * step) <$> seq 0 ((stop + step - 1) / step).

(** Prepend a character to the first piece of a list of pieces. *)
Definition cons_head (c : ascii) (pieces : list string) : list string :=
  match pieces with
  | [] => [String c ""]
  | p :: ps => String c p :: ps
  end.

(** [s.split(sep)] for a non-empty [sep]: scan left to right; at a match
    close the current piece and jump over the separator ([skip] counts
    the separator characters still to be jumped over). *)
Fixpoint split_from (sep : string) (skip : nat) (s : string) : list string :=
  match s with
  | "" => [""]
  | String c rest =>
      match skip with
      | S k => split_from sep k rest
      | 0 =>
          if String.prefix sep s
          then "" :: split_from sep (String.length sep - 1) rest
          else cons_head c (split_from sep 0 rest)
      end
  end.

Definition split (s sep : string) : list string := split_from sep 0 s.

(** [sep.join(pieces)]. *)
Fixpoint join (sep : string) (pieces : list string) : string :=
  match pieces with
  | [] => ""
  | [p] => p
  | p :: ps => p +:+ sep +:+ join sep ps
  end.

(** [s.upper()] on ASCII letters, as used by the uppercasing stub of the
    scenarios; other characters are kept. *)
Definition upper_char (c : ascii) : ascii :=
  let n := N_of_ascii c in
  if ((97 <=? n) && (n <=? 122))%N then ascii_of_N (n - 32) else c.

(** [s.lower()] for code points below 256: the letters A-Z and the
    Latin-1 capitals (192-214, 216-222) move up by 32. *)
Definition lower_char (c : ascii) : ascii :=
  let n := N_of_ascii c in
  if ((65 <=? n) && (n <=? 90) || (192 <=? n) && (n <=? 214)
      || (216 <=? n) && (n <=? 222))%N
  then ascii_of_N (n + 32) else c.

Fixpoint map_chars (f : ascii → ascii) (s : string) : string :=
  match s with
  | "" => ""
  | String c s' => String (f c) (map_chars f s')
  end.

Definition upper : string → string := map_chars upper_char.
Definition lower : string → string := map_chars lower_char.

(** Number of positions of [s] at which [sep] occurs. *)
Fixpoint count_occurrences (sep s : string) : nat :=
  match s with
  | "" => 0
  | String _ rest =>
      (if String.prefix sep s then 1 else 0) + count_occurrences sep rest
  end.

(** [c * n]: the character [c] repeated [n] times. *)
Fixpoint repeat_char (c : ascii) (n : nat) : string :=
  match n with
  | 0 => ""
  | S n' => String c (repeat_char c n')
  end.

(** [s[n:]]. *)
Fixpoint drop (n : nat) (s : string) : string :=
  match n, s with
  | S n', String _ s' => drop n' s'
  | _, _ => s
  end.

(** Every character is white space (true of the empty string). *)
Fixpoint whitespace_only (s : string) : bool :=
  match s with
  | "" => true
  | String c s' => isspace c && whitespace_only s'
  end.

(** [c.isdigit()] on ASCII, and strings made of digits only. *)
Definition isdigit (c : ascii) : bool :=
  let n := N_of_ascii c in ((48 <=? n) && (n <=? 57))%N.

Fixpoint digits_only (s : string) : bool :=
  match s with
  | "" => true
  | String c s' => isdigit c && digits_only s'
  end.

End Py.

(** ** Failure model

    A Python call either returns a value or raises. *)

Inductive exn : Type :=
  | IndexError
  | FileNotFoundError (path : string)
  | OSError (message : string)
  | CollaboratorError (message : string).

Inductive outcome (A : Type) : Type :=
  | Return (a : A)
  | Raise (e : exn).
Arguments Return {A} a.
Arguments Raise {A} e.

Definition raises {A} (o : outcome A) : Prop := ∃ e, o = Raise e.

Global Instance outcome_ret : MRet outcome := λ A a, Return a.
Global Instance outcome_bind : MBind outcome := λ A B k o,
  match o with
  | Return a => k a
  | Raise e => Raise e
  end.

(** [try: body  except Exception as e: handler]. *)
Definition try_except {A} (body : outcome A) (handler : exn → outcome A)
    : outcome A :=
  match body with
  | Return a => Return a
  | Raise e => handler e
  end.

(** ** Translation stage

    [translate_text] of [audio_translator.py]; the body of
    [translate_text_async] in [main.py] is the same code run on a worker
    thread. *)

(** The translation backend, [GoogleTranslator(source='auto',
    target=target_language).translate(sentence)].  The first argument is
    the ordinal of the attempt within the run, so that a backend may
    fail on one attempt and succeed on another with the same sentence. *)
Definition translator : Type := nat → string → string → outcome string.

(** The sentence delimiter, used both to split and to rejoin. *)
Definition delimiter : string := ". ".

(** The [for sentence in sentences] loop, with the list
    [translated_sentences] built so far as accumulator.  Every attempt
    appends exactly one entry, so the attempt ordinal is the length of
    the accumulator. *)
Fixpoint translate_loop (translate : translator) (target_language : string)
    (sentences translated_sentences : list string) : outcome (list string) :=
  match sentences with
  | [] => Return translated_sentences
  | sentence :: rest =>
      if negb (Py.truthy (Py.strip sentence))
      then (* continue *)
        translate_loop translate target_language rest translated_sentences
      else
        translated_sentences ←
          try_except
            (translated ←
               translate (length translated_sentences) target_language sentence;
             Return (translated_sentences ++ [translated]))
            (λ _, (* Keep the original sentence if translation fails *)
               Return (translated_sentences ++ [sentence]));
        translate_loop translate target_language rest translated_sentences
  end.

Definition translate_text (translate : translator)
    (text target_language : string) : outcome string :=
  try_except
    (let sentences := Py.split text delimiter in
     translated_sentences ← translate_loop translate target_language sentences [];
     Return (Py.join delimiter translated_sentences))
    (λ e, Raise e).

Definition translate_text_async := translate_text.

(** The sentences the loop hands to the backend: those whose stripped
    form is non-empty, kept verbatim and in order. *)
Definition split_for_translation (text : string) : list string :=
  filter (λ sentence, Py.truthy (Py.strip sentence) = true)
         (Py.split text delimiter).

(** What the loop stores for one attempted sentence. *)
Definition segment_result (translate : translator) (target_language : string)
    (i : nat) (sentence : string) : string :=
  match translate i target_language sentence with
  | Return translated => translated
  | Raise _ => sentence
  end.

(** Backend stubs used in the scenarios. *)
Definition uppercase_stub : translator :=
  λ _ _ sentence, Return (Py.upper sentence).

Definition identity_stub : translator :=
  λ _ _ sentence, Return sentence.

Definition failing_at (k : nat) (translate : translator) : translator :=
  λ i target_language sentence,
    if decide (i = k) then Raise (CollaboratorError "translation failed")
    else translate i target_language sentence.

(** ** Synthesis chunking *)

Definition max_chunk_size : nat := 5000.

(** [[text[i:i+size] for i in range(0, len(text), size)]]. *)
Definition split_chunks (size : nat) (text : string) : list string :=
  (λ i, Py.slice text i (i + size)) <$> Py.range_step (String.length text) size.

Definition chunks_of (text : string) : list string :=
  split_chunks max_chunk_size text.

(** Concatenation of a list of strings in order. *)
Definition concat_strings (pieces : list string) : string :=
  foldr String.append "" pieces.

(** ** Paths *)

(** A [pathlib] path on POSIX: the root (["/"], ["//"] or none) and the
    components, empty ones and single dots dropped. *)
Record posix_path : Type := PosixPath {
  path_root : string;
  path_parts : list string
}.

Definition Path (s : string) : posix_path :=
  {| path_root :=
       if Py.startswith s "//" && negb (Py.startswith s "///") then "//"
       else if Py.startswith s "/" then "/" else "";
     path_parts :=
       filter (λ part, part ≠ "" ∧ part ≠ ".") (Py.split s "/") |}.

Definition is_absolute (p : posix_path) : bool := Py.truthy (path_root p).

(** [a / b]. *)
Definition joinpath (a b : posix_path) : posix_path :=
  if is_absolute b then b
  else {| path_root := path_root a; path_parts := path_parts a ++ path_parts b |}.

(** [str(p)]. *)
Definition path_str (p : posix_path) : string :=
  match path_root p, path_parts p with
  | "", [] => "."
  | root, parts => root +:+ Py.join "/" parts
  end.

(** The components of [os.path.normpath]: a [..] cancels the component
    before it, is dropped at the root, and is kept at the start of a
    relative path.  [stack] holds the components kept so far, last
    first. *)
Fixpoint normalize_parts (absolute : bool) (stack parts : list string)
    : list string :=
  match parts with
  | [] => reverse stack
  | part :: rest =>
      if decide (part = "..") then
        match stack with
        | [] =>
            if absolute then normalize_parts absolute [] rest
            else normalize_parts absolute [".."] rest
        | top :: below =>
            if decide (top = "..")
            then normalize_parts absolute (".." :: stack) rest
            else normalize_parts absolute below rest
        end
      else normalize_parts absolute (part :: stack) rest
  end.

(** [os.path.abspath(path)] in the working directory [cwd]: the name
    under which the file system knows the file that [path] denotes. *)
Definition abspath (cwd path : string) : string :=
  let p := joinpath (Path cwd) (Path path) in
  path_str {| path_root := path_root p;
              path_parts := normalize_parts (is_absolute p) [] (path_parts p) |}.

(** Words that the shell hands on as they are: non-empty, made of
    letters, digits, [_], [.] and [/] only. *)
Definition name_char (c : ascii) : bool :=
  let n := N_of_ascii c in
  ((48 <=? n) && (n <=? 57) || (65 <=? n) && (n <=? 90)
   || (97 <=? n) && (n <=? 122) || (n =? 95) || (n =? 46))%N.

Definition word_char (c : ascii) : bool :=
  name_char c || (N_of_ascii c =? 47)%N.

Fixpoint all_chars (f : ascii → bool) (s : string) : bool :=
  match s with
  | "" => true
  | String c s' => f c && all_chars f s'
  end.

Definition shell_word (s : string) : bool :=
  Py.truthy s && all_chars word_char s.

(** ** Files and collaborators of the synthesis stage *)

Definition audio : Type := list Byte.byte.

(** A file holds synthesized audio or a concatenation manifest; a
    manifest entry [p] stands for the line [file 'p']. *)
Inductive content : Type :=
  | Audio (a : audio)
  | Manifest (entries : list string).

(** The file system as a process sees it: its working directory and the
    files, under their absolute names.  Looking up, writing or removing
    [path] acts on the entry [abspath cwd path]. *)
Record directory : Type := Directory {
  dir_cwd : string;
  entries : gmap string content
}.

Definition entry (d : directory) (path : string) : string :=
  abspath (dir_cwd d) path.

Global Instance directory_lookup : Lookup string content directory :=
  λ path d, entries d !! entry d path.
Global Instance directory_insert : Insert string content directory :=
  λ path c d,
    {| dir_cwd := dir_cwd d; entries := <[entry d path := c]> (entries d) |}.
Global Instance directory_delete : Delete string directory :=
  λ path d,
    {| dir_cwd := dir_cwd d; entries := delete (entry d path) (entries d) |}.
Global Instance directory_empty : Empty directory :=
  {| dir_cwd := "/"; entries := ∅ |}.
Global Instance directory_singleton : SingletonM string content directory :=
  λ path c, <[path := c]> ∅.

(** Two paths that denote one file. *)
Definition same_file (d : directory) (p q : string) : Prop :=
  entry d p = entry d q.

Global Instance same_file_dec d p q : Decision (same_file d p q) :=
  decide (entry d p = entry d q).

Inductive event : Type :=
  | SaveChunk (path : string)
  | LeaveChunk (path : string)
  | WriteManifest (path : string)
  | RunConcat (manifest output : string) (status : nat)
  | Remove (path : string)
  | Rename (src dst : string).

(** The file system and the sequence of file operations and
    collaborator calls made so far. *)
Record world : Type := World {
  files : directory;
  trace : list event
}.

(** The collaborators and the environment of a run.

    - [gtts i chunk lang] is [gTTS(text=chunk, lang=lang, slow=False)]
      followed by [save], for the chunk of ordinal [i]; when it fails,
      [gtts_partial i chunk lang] is what [save] has left in the file it
      had opened, if it got that far.
    - [ffmpeg_concat] is the stream copy done by [ffmpeg -f concat
      -c copy] ([None]: it fails), [ffmpeg_partial] what a failing run
      leaves at the output path, if anything, and [ffmpeg_overwrites]
      whether an output that already exists gets overwritten (there is no
      [-y] on the command line, so ffmpeg asks).
    - [shell command cwd files] is what [sh -c command] does to the
      files, and its exit status, when the command line is not made of
      plain words.
    - [rename_error src dst] is the error with which the system refuses
      [os.rename(src, dst)] for an existing [src] (missing target
      directory, target that is a directory, other device), if any. *)
Record backends : Type := Backends {
  gtts : nat → string → string → outcome audio;
  gtts_partial : nat → string → string → option audio;
  ffmpeg_concat : list audio → option audio;
  ffmpeg_partial : list audio → option audio;
  ffmpeg_overwrites : bool;
  shell : string → string → gmap string content
          → outcome nat * gmap string content;
  rename_error : string → string → option exn
}.

(** Effects persist when a call raises. *)
Definition M (A : Type) : Type := world → outcome A * world.

Global Instance M_ret : MRet M := λ A a w, (Return a, w).
Global Instance M_bind : MBind M := λ A B k m w,
  match m w with
  | (Return a, w') => k a w'
  | (Raise e, w') => (Raise e, w')
  end.

Definition raise {A} (e : exn) : M A := λ w, (Raise e, w).

(** [try: body  except Exception as e: handler], with effects. *)
Definition try_except_M {A} (body : M A) (handler : exn → M A) : M A := λ w,
  match body w with
  | (Return a, w') => (Return a, w')
  | (Raise e, w') => handler e w'
  end.

Definition log_event (ev : event) (w : world) : world :=
  {| files := files w; trace := trace w ++ [ev] |}.

Definition set_files (fs : directory) (w : world) : world :=
  {| files := fs; trace := trace w |}.

(** [tts = gTTS(...); tts.save(temp_file)]: [save] opens the file and
    then fetches the audio, so a failure may leave the file behind,
    empty or truncated. *)
Definition tts_save (B : backends) (i : nat) (chunk language temp_file : string)
    : M unit := λ w,
  match gtts B i chunk language with
  | Return a =>
      (Return (), log_event (SaveChunk temp_file)
                    (set_files (<[temp_file := Audio a]> (files w)) w))
  | Raise e =>
      match gtts_partial B i chunk language with
      | Some partial =>
          (Raise e, log_event (LeaveChunk temp_file)
                      (set_files (<[temp_file := Audio partial]> (files w)) w))
      | None => (Raise e, w)
      end
  end.

(** [with open(concat_file, "w") as f: for temp_file in temp_files:
    f.write(...)]. *)
Definition write_manifest (concat_file : string) (temp_files : list string)
    : M unit := λ w,
  (Return (), log_event (WriteManifest concat_file)
                (set_files (<[concat_file := Manifest temp_files]> (files w)) w)).

Definition read_audio (fs : directory) (path : string) : option audio :=
  match fs !! path with
  | Some (Audio a) => Some a
  | _ => None
  end.

(** What ffmpeg does once it runs: whether it fails (status 1) or not
    (status 0), and what it writes at the output path, from the streams
    it could read and from whether the output is there already. *)
Definition ffmpeg_effect (B : backends) (inputs : option (list audio))
    (output_exists : bool) : nat * option audio :=
  match inputs with
  | None => (1, None)
  | Some streams =>
      if output_exists && negb (ffmpeg_overwrites B) then (1, None)
      else
        match ffmpeg_concat B streams with
        | Some joined => (0, Some joined)
        | None => (1, ffmpeg_partial B streams)
        end
  end.

(** [os.system(f"ffmpeg -f concat -safe 0 -i {concat_file} -c copy
    {output_path}")].  The names are pasted into the command line
    unquoted: when both are plain words the command runs ffmpeg on the
    manifest, otherwise what happens is up to the shell.  The exit status
    is returned. *)
Definition os_system_ffmpeg (B : backends) (concat_file output_path : string)
    : M nat := λ w,
  let command :=
    "ffmpeg -f concat -safe 0 -i " +:+ concat_file
    +:+ " -c copy " +:+ output_path in
  if shell_word concat_file && shell_word output_path then
    let inputs :=
      match files w !! concat_file with
      | Some (Manifest listed) => mapM (read_audio (files w)) listed
      | _ => None
      end in
    let effect :=
      ffmpeg_effect B inputs (bool_decide (is_Some (files w !! output_path))) in
    (Return effect.1,
     log_event (RunConcat concat_file output_path effect.1)
       (set_files (match effect.2 with
                   | Some a => <[output_path := Audio a]> (files w)
                   | None => files w
                   end) w))
  else
    match shell B command (dir_cwd (files w)) (entries (files w)) with
    | (Return exit_code, after) =>
        (Return exit_code,
         log_event (RunConcat concat_file output_path exit_code)
           (set_files {| dir_cwd := dir_cwd (files w); entries := after |} w))
    | (Raise e, after) =>
        (Raise e,
         set_files {| dir_cwd := dir_cwd (files w); entries := after |} w)
    end.

Definition os_path_exists (path : string) : M bool := λ w,
  (Return (bool_decide (is_Some (files w !! path))), w).

Definition os_remove (path : string) : M unit := λ w,
  match files w !! path with
  | Some _ =>
      (Return (), log_event (Remove path) (set_files (delete path (files w)) w))
  | None => (Raise (FileNotFoundError path), w)
  end.

(** [os.rename(src, dst)]: the file keeps its content and loses its old
    name; an existing [dst] is replaced. *)
Definition os_rename (B : backends) (src dst : string) : M unit := λ w,
  match files w !! src with
  | Some c =>
      match rename_error B src dst with
      | Some e => (Raise e, w)
      | None =>
          (Return (), log_event (Rename src dst)
                        (set_files (<[dst := c]> (delete src (files w))) w))
      end
  | None => (Raise (FileNotFoundError src), w)
  end.

(** [temp_files[0]]. *)
Definition first_item (temp_files : list string) : M string :=
  match temp_files with
  | [] => raise IndexError
  | temp_file :: _ => mret temp_file
  end.

(** ** Synthesis stage

    [text_to_speech] ([audio_translator.py]) and the body of
    [text_to_speech_async] ([main.py]) are the same code up to the
    temporary names and the guard around [os.remove]. *)

Inductive mode : Type := CommandLine | Service.

Definition temp_file_name (m : mode) (pid : N) (i : nat) : string :=
  match m with
  | CommandLine => "temp_" +:+ pretty i +:+ ".mp3"
  | Service => "temp_" +:+ pretty i +:+ "_" +:+ pretty pid +:+ ".mp3"
  end.

Definition concat_file_name (m : mode) (pid : N) : string :=
  match m with
  | CommandLine => "concat_list.txt"
  | Service => "concat_list_" +:+ pretty pid +:+ ".txt"
  end.

(** One step of the cleanup: [os.remove(path)], guarded by
    [os.path.exists(path)] in the service. *)
Definition cleanup_remove (m : mode) (path : string) : M unit :=
  match m with
  | CommandLine => os_remove path
  | Service =>
      found ← os_path_exists path;
      if found : bool then os_remove path else mret ()
  end.

Fixpoint cleanup_all (m : mode) (temp_files : list string) : M unit :=
  match temp_files with
  | [] => mret ()
  | temp_file :: rest => cleanup_remove m temp_file;; cleanup_all m rest
  end.

(** [for i, chunk in enumerate(chunks)], from ordinal [i] on. *)
Fixpoint synthesize_chunks (B : backends) (m : mode) (pid : N)
    (language : string) (i : nat) (chunks temp_files : list string)
    : M (list string) :=
  match chunks with
  | [] => mret temp_files
  | chunk :: rest =>
      let temp_file := temp_file_name m pid i in
      tts_save B i chunk language temp_file;;
      synthesize_chunks B m pid language (S i) rest (temp_files ++ [temp_file])
  end.

(** The statements inside the outer [try]. *)
Definition synthesis_body (B : backends) (m : mode) (pid : N)
    (text output_path language : string) : M unit :=
  let chunks := chunks_of text in
  temp_files ← synthesize_chunks B m pid language 0 chunks [];
  if decide (1 < length temp_files) then
    let concat_file := concat_file_name m pid in
    write_manifest concat_file temp_files;;
    os_system_ffmpeg B concat_file output_path;;
    cleanup_all m temp_files;;
    cleanup_remove m concat_file
  else
    (* If only one chunk, just rename the file *)
    temp_file ← first_item temp_files;
    os_rename B temp_file output_path.

(** The whole function: the handler logs the error and raises it
    again. *)
Definition synthesis (B : backends) (m : mode) (pid : N)
    (text output_path language : string) : M unit :=
  try_except_M (synthesis_body B m pid text output_path language)
    (λ e, raise e).

(** The command-line function, run in the process [pid]. *)
Definition text_to_speech (B : backends) (pid : N) :=
  synthesis B CommandLine pid.

(** The service function, run on a worker thread of the process [pid]. *)
Definition text_to_speech_async (B : backends) (pid : N) :=
  synthesis B Service pid.

(** The paths of the chunk files saved, and of all temporary files
    created (chunk files, also those left by a failed save, and
    manifests), according to a trace. *)
Definition saved_paths (t : list event) : list string :=
  omap (λ ev, match ev with SaveChunk path => Some path | _ => None end) t.


(** The events added by one call started in the world [w]. *)
Definition events_of {A} (op : M A) (w : world) : list event :=
  drop (length (trace w)) (trace (op w).2).

(** The audio of each chunk when every synthesis call succeeds. *)
Definition produced (o : outcome audio) : audio :=
  match o with
  | Return a => a
  | Raise _ => []
  end.


(** What the save of a failed synthesis adds to the trace, and the
    number of chunk files touched by a loop that fails at chunk [k]. *)
Definition leftover (left_behind : option audio) (failed : string) : list event :=
  match left_behind with
  | Some _ => [LeaveChunk failed]
  | None => []
  end.

Definition touched (left_behind : option audio) (k : nat) : nat :=
  match left_behind with
  | Some _ => S k
  | None => k
  end.

(** Operations that extend the trace without saving a chunk file. *)
Definition saves_nothing {A} (op : M A) : Prop :=
  ∀ w, ∃ new, trace (op w).2 = trace w ++ new ∧ saved_paths new = [].

(** Operations that, run in the working directory [cwd], leave alone
    every file whose absolute name satisfies [keep]. *)
Definition leaves_alone {A} (cwd : string) (keep : string → Prop) (op : M A)
    : Prop :=
  ∀ w, dir_cwd (files w) = cwd →
    dir_cwd (files (op w).2) = cwd
    ∧ ∀ key, keep key → entries (files (op w).2) !! key = entries (files w) !! key.

(** An empty file system, and stubs for the scenarios: [echo_backends]
    encodes the chunk as its audio, copies streams end to end and meets
    no refusal; the variants fail on one chunk (leaving an empty file),
    in the concatenation, or at the rename. *)
Definition empty_world : world := {| files := ∅; trace := [] |}.

Definition echo_backends : backends :=
  {| gtts := λ _ chunk _, Return (String.list_byte_of_string chunk);
     gtts_partial := λ _ _ _, None;
     ffmpeg_concat := λ inputs, Some (concat inputs);
     ffmpeg_partial := λ _, None;
     ffmpeg_overwrites := true;
     shell := λ _ _ fs, (Return 127, fs);
     rename_error := λ _ _, None |}.

Definition failing_chunk (k : nat) (B : backends) : backends :=
  {| gtts := λ i chunk language,
       if decide (i = k) then Raise (CollaboratorError "synthesis failed")
       else gtts B i chunk language;
     gtts_partial := λ i chunk language,
       if decide (i = k) then Some [] else gtts_partial B i chunk language;
     ffmpeg_concat := ffmpeg_concat B;
     ffmpeg_partial := ffmpeg_partial B;
     ffmpeg_overwrites := ffmpeg_overwrites B;
     shell := shell B;
     rename_error := rename_error B |}.


Definition failing_rename (B : backends) : backends :=
  {| gtts := gtts B;
     gtts_partial := gtts_partial B;
     ffmpeg_concat := ffmpeg_concat B;
     ffmpeg_partial := ffmpeg_partial B;
     ffmpeg_overwrites := ffmpeg_overwrites B;
     shell := shell B;
     rename_error := λ _ _, Some (OSError "No such file or directory") |}.


(** A text of two chunks: 5000 characters and one more. *)
Definition long_text : string := Py.repeat_char "a" 5001.

(** ** Upload validation and the two POST endpoints ([main.py]) *)

(** [Path(filename).name] for a POSIX path: the last component that is
    neither empty nor a single dot. *)
Definition path_name (filename : string) : string :=
  default "" (last (filter (λ part, part ≠ "" ∧ part ≠ ".")
                           (Py.split filename "/"))).

(** [name[name.rfind('.'):]] when [name] contains a dot. *)
Fixpoint from_last_dot (name : string) : option string :=
  match name with
  | "" => None
  | String c rest =>
      match from_last_dot rest with
      | Some tail => Some tail
      | None => if decide (c = "."%char) then Some name else None
      end
  end.

(** [Path(filename).suffix]: the part of the name from its last dot on,
    provided that dot is neither the first nor the last character. *)
Definition path_suffix (filename : string) : string :=
  match path_name filename with
  | "" => ""
  | String _ rest =>
      match from_last_dot rest with
      | Some tail => if decide (1 < String.length tail) then tail else ""
      | None => ""
      end
  end.

Record upload : Type := Upload {
  filename : string;
  content_type : option string;
  contents : list Byte.byte
}.

Definition allowed_extensions : list string :=
  [".wav"; ".mp3"; ".aiff"; ".flac"; ".ogg"; ".m4a"; ".mp4"].

Definition file_extension (file : upload) : string :=
  Py.lower (path_suffix (filename file)).

(** [not file.content_type or (not file.content_type.startswith('audio/')
    and file_extension not in allowed_extensions)]. *)
Definition invalid_upload (file : upload) : bool :=
  match content_type file with
  | None => true
  | Some declared =>
      negb (Py.truthy declared)
      || (negb (Py.startswith declared "audio/")
          && negb (bool_decide (file_extension file ∈ allowed_extensions)))
  end.

(** A handler returns a body (status 200), raises [HTTPException], or
    lets another exception escape, which the framework answers with
    status 500.  An upload always carries a file name. *)
Inductive response (A : Type) : Type :=
  | Ok200 (body : A)
  | HTTPException (status_code : nat)
  | Unhandled (e : exn).
Arguments Ok200 {A} body.
Arguments HTTPException {A} status_code.
Arguments Unhandled {A} e.

Definition status {A} (r : response A) : nat :=
  match r with
  | Ok200 _ => 200
  | HTTPException code => code
  | Unhandled _ => 500
  end.

Record TranslationResponse : Type := {
  original_text : string;
  translated_text : string;
  target_language : string;
  message : string
}.

Record FileResponse : Type := {
  response_path : string;
  media_type : string;
  attachment : string
}.

(** The collaborators of one service process: the loaded Whisper model,
    the translation backend, the synthesis backends, and the temporary
    copy of the upload.  [named_temporary_file suffix] is
    [tempfile.NamedTemporaryFile(delete=False, suffix=suffix)], which
    gives the name of a fresh file of the system's temporary directory
    or fails (a suffix that is too long, a full disk);
    [store_upload name contents] is the [await file.read()] and the
    write to that file.  The copy is removed by the [finally] clause of
    the handlers and is not an entry of the file system modelled;
    Whisper is given its content. *)
Record service : Type := Service_ {
  whisper_transcribe : list Byte.byte → outcome string;
  google_translate : translator;
  speech : backends;
  os_getpid : N;
  named_temporary_file : string → outcome string;
  store_upload : string → list Byte.byte → outcome unit
}.

Definition transcribe_audio_async (S : service) (audio_bytes : list Byte.byte)
    : outcome string :=
  try_except (whisper_transcribe S audio_bytes) (λ e, Raise e).

(** [/translate-audio]: the temporary file is made before the [try], so
    its failure is not turned into an [HTTPException]. *)
Definition translate_audio_endpoint (S : service) (file : upload)
    (target_language : string) : response TranslationResponse :=
  if invalid_upload file then HTTPException 400
  else
    match named_temporary_file S (path_suffix (filename file)) with
    | Raise e => Unhandled e
    | Return temp_audio =>
        match
          store_upload S temp_audio (contents file);;
          transcribed_text ← transcribe_audio_async S (contents file);
          translated_text ←
            translate_text_async (google_translate S) transcribed_text
              target_language;
          Return {| original_text := transcribed_text;
                    translated_text := translated_text;
                    target_language := target_language;
                    message := "Translation completed successfully" |}
        with
        | Return body => Ok200 body
        | Raise _ => HTTPException 500
        end
    end.

(** [/translate-and-synthesize]: everything after the validation is
    inside the [try].  [temp_output_path] is the name handed out by
    [tempfile.mktemp]. *)
Definition translate_and_synthesize_endpoint (S : service) (file : upload)
    (target_language temp_output_path : string) (w : world)
    : response FileResponse * world :=
  if invalid_upload file then (HTTPException 400, w)
  else
    match
      temp_audio ← named_temporary_file S (path_suffix (filename file));
      store_upload S temp_audio (contents file);;
      transcribed_text ← transcribe_audio_async S (contents file);
      translate_text_async (google_translate S) transcribed_text target_language
    with
    | Raise _ => (HTTPException 500, w)
    | Return translated_text =>
        match text_to_speech_async (speech S) (os_getpid S)
                translated_text temp_output_path target_language w with
        | (Return _, w') =>
            (Ok200 {| response_path := temp_output_path;
                      media_type := "audio/mpeg";
                      attachment := "translated_" +:+ filename file +:+ ".mp3" |},
             w')
        | (Raise _, w') => (HTTPException 500, w')
        end
    end.

(** ** Command-line entry point ([audio_translator.py]) *)

(** The parsed command line; [output] defaults to
    ["translated_audio.mp3"] and [language] to ["es"]. *)
Record arguments : Type := Arguments_ {
  input_file : string;
  output : string;
  language : string;
  verbose : bool
}.

(** The process running the tool: its working directory (what
    [Path.cwd()] returns, and the directory against which the file
    system of a run resolves relative names), its identifier, and the
    collaborators ([whisper_base path] loads the model and transcribes
    the file at [path]). *)
Record process : Type := Process {
  cwd : string;
  process_id : N;
  whisper_base : string → outcome string;
  translation : translator;
  tts : backends
}.

Definition transcribe_audio (E : process) (audio_path : string) : outcome string :=
  try_except (whisper_base E audio_path) (λ e, Raise e).

(** [current_dir / p] unless [p] is absolute. *)
Definition absolute_path (E : process) (name : string) : posix_path :=
  let current_dir := Path (cwd E) in
  let p := Path name in
  if negb (is_absolute p) then joinpath current_dir p else p.

(** [main] once [parser.parse_args()] has returned [args], up to the
    exit status of the process: [sys.exit(1)] when the input file is
    missing or a stage raises, 0 when the function returns. *)
Definition main (E : process) (args : arguments) (w : world) : nat * world :=
  let input_path := absolute_path E (input_file args) in
  let output_path := absolute_path E (output args) in
  if negb (bool_decide (is_Some (files w !! path_str input_path)))
  then (1, w)
  else
    match
      transcribed_text ← transcribe_audio E (path_str input_path);
      translate_text (translation E) transcribed_text (language args)
    with
    | Raise _ => (1, w)
    | Return translated_text =>
        match text_to_speech (tts E) (process_id E) translated_text
                (path_str output_path) (language args) w with
        | (Return _, w') => (0, w')
        | (Raise _, w') => (1, w')
        end
    end.

(** What [parser.parse_args()] makes of the command line: the parsed
    arguments, or an exit of the process (status 2 with a usage message
    for a malformed command line, status 0 after [--help]). *)
Inductive parse_result : Type :=
  | Parsed (args : arguments)
  | ParserExit (exit_code : nat).

(** The whole of [main], from the command line: the arguments are parsed
    before the [try], so an exit of the parser ends the process before
    anything else is done. *)
Definition main_argv (parse_args : list string → parse_result)
    (E : process) (argv : list string) (w : world) : nat * world :=
  match parse_args argv with
  | ParserExit exit_code => (exit_code, w)
  | Parsed args => main E args w
  end.

(** A process and a service whose collaborators are the stubs. *)
Definition echo_process : process :=
  {| cwd := "/work"; process_id := 7;
     whisper_base := λ _, Return "Hello world. This is a test.";
     translation := uppercase_stub; tts := echo_backends |}.


(** * Properties *)

(** ** Strings *)

Section string_facts.
Implicit Types (s t u : string) (c : ascii).

Lemma app_String c s t : String c s +:+ t = String c (s +:+ t).
Proof. reflexivity. Qed.

Lemma app_empty_l t : "" +:+ t = t.
Proof. reflexivity. Qed.

Lemma app_empty_r s : s +:+ "" = s.
Proof. induction s as [|c s IH]; [done|]. by rewrite app_String, IH. Qed.

Lemma app_assoc_string s t u : (s +:+ t) +:+ u = s +:+ (t +:+ u).
Proof. induction s as [|c s IH]; [done|]. by rewrite !app_String, IH. Qed.

Lemma length_app_string s t :
  String.length (s +:+ t) = String.length s + String.length t.
Proof. induction s as [|c s IH]; [done|]. rewrite app_String. simpl. lia. Qed.

Lemma substring_length s : ∀ i n,
  String.length (substring i n s) = n `min` (String.length s - i).
Proof.
  induction s as [|c s IH]; intros [|i] [|n]; simpl; try done.
  all: rewrite IH; simpl; lia.
Qed.

Lemma substring_all s n : String.length s ≤ n → substring 0 n s = s.
Proof.
  revert n. induction s as [|c s IH]; intros [|n] Hn; simpl in *; try done.
  - lia.
  - f_equal. apply IH. lia.
Qed.

Lemma substring_glue s : ∀ a b,
  substring 0 a s +:+ substring a b s = substring 0 (a + b) s.
Proof.
  induction s as [|c s IH]; intros [|a] b; simpl.
  - by destruct b.
  - by destruct b.
  - done.
  - by rewrite app_String, IH.
Qed.
End string_facts.

Lemma concat_strings_snoc pieces p :
  concat_strings (pieces ++ [p]) = concat_strings pieces +:+ p.
Proof.
  induction pieces as [|q pieces IH]; simpl.
  - by rewrite app_empty_r.
  - by rewrite IH, app_assoc_string.
Qed.

Lemma length_concat_strings pieces :
  String.length (concat_strings pieces) = sum_list (String.length <$> pieces).
Proof.
  induction pieces as [|q pieces IH]; simpl; [done|].
  by rewrite length_app_string, IH.
Qed.

(** ** Chunking for synthesis *)

Lemma slice_substring text i size :
  Py.slice text i (i + size) = substring i size text.
Proof. unfold Py.slice. f_equal. lia. Qed.

Lemma split_chunks_unfold size text :
  split_chunks size text =
  (λ k, substring (k * size) size text)
    <$> seq 0 ((String.length text + size - 1) / size).
Proof.
  unfold split_chunks, Py.range_step. rewrite <-list_fmap_compose.
  apply list_fmap_ext. intros _ k _. simpl. apply slice_substring.
Qed.

Lemma concat_first_chunks size text n :
  concat_strings ((λ k, substring (k * size) size text) <$> seq 0 n)
  = substring 0 (n * size) text.
Proof.
  induction n as [|n IH].
  - simpl. by destruct text.
  - rewrite seq_S, fmap_app. simpl (_ <$> [_]).
    rewrite concat_strings_snoc, IH, substring_glue. f_equal. lia.
Qed.

Lemma chunk_count_covers len size :
  0 < size → len ≤ (len + size - 1) / size * size.
Proof.
  intros Hsize.
  pose proof (Nat.div_mod (len + size - 1) size ltac:(lia)) as Hdiv.
  pose proof (Nat.mod_upper_bound (len + size - 1) size ltac:(lia)) as Hmod.
  nia.
Qed.

Lemma length_split_chunks size text :
  length (split_chunks size text) = (String.length text + size - 1) / size.
Proof. by rewrite split_chunks_unfold, length_fmap, length_seq. Qed.

Lemma split_chunks_lookup size text k chunk :
  split_chunks size text !! k = Some chunk →
  chunk = substring (k * size) size text.
Proof.
  rewrite split_chunks_unfold, list_lookup_fmap.
  intros Hk. apply fmap_Some in Hk as (k' & Hk' & ->).
  apply lookup_seq in Hk' as [-> _]. done.
Qed.

(** C4.  For every text and every positive cap, the chunks are the
    consecutive substrings of the text taken at multiples of the cap:
    none is longer than the cap, their lengths add up to the length of
    the text, their concatenation in order is the text, and a text of
    12000 characters cut at 5000 gives exactly 3 chunks. *)
Theorem split_chunks_partition (text : string) (cap : nat) :
  0 < cap →
  let chunks := split_chunks cap text in
  (∀ k chunk, chunks !! k = Some chunk →
     chunk = substring (k * cap) cap text ∧ String.length chunk ≤ cap)
  ∧ sum_list (String.length <$> chunks) = String.length text
  ∧ concat_strings chunks = text
  ∧ (String.length text = 12000 → cap = 5000 → length chunks = 3).
Proof.
  intros Hcap chunks.
  assert (concat_strings chunks = text) as Hconcat.
  { unfold chunks. rewrite split_chunks_unfold, concat_first_chunks.
    apply substring_all, chunk_count_covers, Hcap. }
  split_and!.
  - intros k chunk Hk. apply split_chunks_lookup in Hk as ->.
    split; [done|]. rewrite substring_length. lia.
  - by rewrite <-length_concat_strings, Hconcat.
  - done.
  - intros Hlen ->. unfold chunks.
    rewrite length_split_chunks, Hlen. by vm_compute.
Qed.

Lemma split_chunks_partition_witness :
  let text := Py.repeat_char "a" 12000 in
  length (split_chunks 5000 text) = 3
  ∧ concat_strings (split_chunks 5000 text) = text.
Proof.
  intros text.
  destruct (split_chunks_partition text 5000 ltac:(lia)) as (_ & _ & Hcat & Hlen).
  split; [apply Hlen; by vm_compute | exact Hcat].
Defined.

(** ** Stripping and splitting *)

Lemma truthy_lstrip s : Py.truthy (Py.lstrip s) = negb (Py.whitespace_only s).
Proof.
  induction s as [|c s IH]; simpl; [done|].
  destruct (Py.isspace c); simpl; done.
Qed.

Lemma whitespace_only_lstrip s :
  Py.whitespace_only (Py.lstrip s) = Py.whitespace_only s.
Proof.
  induction s as [|c s IH]; simpl; [done|].
  destruct (Py.isspace c) eqn:Hc; simpl; [done|]. by rewrite Hc.
Qed.

Lemma truthy_rstrip s : Py.truthy (Py.rstrip s) = negb (Py.whitespace_only s).
Proof.
  induction s as [|c s IH]; simpl; [done|].
  destruct (Py.rstrip s) as [|d r]; simpl in *.
  - apply (f_equal negb) in IH. rewrite negb_involutive in IH. simpl in IH.
    rewrite <-IH, andb_true_r. by destruct (Py.isspace c).
  - apply (f_equal negb) in IH. rewrite negb_involutive in IH. simpl in IH.
    by rewrite <-IH, andb_false_r.
Qed.

(** The test [not sentence.strip()] holds exactly of the sentences made
    of white space only. *)
Lemma truthy_strip s : Py.truthy (Py.strip s) = negb (Py.whitespace_only s).
Proof. unfold Py.strip. by rewrite truthy_rstrip, whitespace_only_lstrip. Qed.

Lemma split_from_not_nil sep k s : Py.split_from sep k s ≠ [].
Proof.
  revert k. induction s as [|c s IH]; intros k; cbn [Py.split_from]; [done|].
  destruct k; [|apply IH].
  destruct (String.prefix sep (String c s)); [done|].
  specialize (IH 0). by destruct (Py.split_from sep 0 s).
Qed.

Lemma join_cons sep p ps :
  ps ≠ [] → Py.join sep (p :: ps) = p +:+ sep +:+ Py.join sep ps.
Proof. by destruct ps. Qed.

Lemma join_cons_head sep c ps :
  ps ≠ [] → Py.join sep (Py.cons_head c ps) = String c (Py.join sep ps).
Proof. destruct ps as [|p [|q ps]]; done. Qed.

Lemma length_cons_head c ps : ps ≠ [] → length (Py.cons_head c ps) = length ps.
Proof. by destruct ps. Qed.

Lemma prefix_drop sep : ∀ s,
  String.prefix sep s = true → s = sep +:+ Py.drop (String.length sep) s.
Proof.
  induction sep as [|a sep IH]; intros [|b s]; simpl; try done.
  destruct (ascii_dec a b) as [->|]; [|done].
  intros Hpre. rewrite app_String. f_equal. by apply IH.
Qed.

(** Joining the pieces with the separator gives back the text: the split
    cuts at occurrences of the separator and nowhere else. *)
Lemma join_split_from sep s : ∀ k,
  sep ≠ "" → Py.join sep (Py.split_from sep k s) = Py.drop k s.
Proof.
  induction s as [|c s IH]; intros k Hsep; cbn [Py.split_from].
  - by destruct k.
  - destruct k as [|k]; [|by apply IH].
    destruct (String.prefix sep (String c s)) eqn:Hpre.
    + rewrite join_cons by apply split_from_not_nil.
      rewrite IH by done. rewrite app_empty_l.
      apply prefix_drop in Hpre. change (Py.drop 0 (String c s)) with (String c s).
      rewrite Hpre at 1.
      destruct sep as [|a sep]; [done|]. simpl. by rewrite Nat.sub_0_r.
    + rewrite join_cons_head by apply split_from_not_nil.
      rewrite IH by done. done.
Qed.

Lemma join_split text : Py.join delimiter (Py.split text delimiter) = text.
Proof. unfold Py.split. by rewrite join_split_from. Qed.

(** Occurrences of [". "] cannot overlap, so the split cuts at every one
    of them. *)
Lemma length_split_from_delimiter s : ∀ k,
  k ≤ 1 →
  length (Py.split_from delimiter k s)
  = S (Py.count_occurrences delimiter (Py.drop k s)).
Proof.
  induction s as [|c s IH]; intros k Hk.
  - by destruct k.
  - destruct k as [|k].
    + change (Py.drop 0 (String c s)) with (String c s).
      cbn [Py.split_from Py.count_occurrences].
      destruct (String.prefix delimiter (String c s)) eqn:Hpre.
      * change (String.length delimiter - 1) with 1.
        cbn [length]. rewrite (IH 1) by lia.
        apply prefix_drop in Hpre. injection Hpre as -> ->. done.
      * rewrite length_cons_head by apply split_from_not_nil.
        by rewrite (IH 0) by lia.
    + assert (k = 0) as -> by lia. simpl. by rewrite (IH 0) by lia.
Qed.

Lemma length_split text :
  length (Py.split text delimiter)
  = Py.count_occurrences delimiter text + 1.
Proof. unfold Py.split. rewrite length_split_from_delimiter by lia. simpl. lia. Qed.

(** ** The translation loop *)

Lemma translate_attempt translate lang sentence done_so_far :
  try_except
    (translated ← translate (length done_so_far) lang sentence;
     Return (done_so_far ++ [translated]))
    (λ _, Return (done_so_far ++ [sentence]))
  = Return (done_so_far
            ++ [segment_result translate lang (length done_so_far) sentence]).
Proof.
  unfold segment_result.
  by destruct (translate (length done_so_far) lang sentence).
Qed.

Lemma translate_loop_spec translate lang sentences : ∀ done_so_far,
  translate_loop translate lang sentences done_so_far
  = Return (done_so_far
            ++ imap (λ i, segment_result translate lang (length done_so_far + i))
                 (filter (λ sentence, Py.truthy (Py.strip sentence) = true)
                    sentences)).
Proof.
  induction sentences as [|sentence rest IH]; intros acc; simpl.
  - by rewrite app_nil_r.
  - rewrite filter_cons.
    destruct (Py.truthy (Py.strip sentence)) eqn:Hkeep; simpl; [|apply IH].
    rewrite translate_attempt. simpl. rewrite IH. f_equal.
    rewrite <-app_assoc, Nat.add_0_r. simpl. do 2 f_equal.
    apply imap_ext. intros i s _. simpl. rewrite length_app. simpl.
    f_equal. lia.
Qed.

Lemma translate_loop_start translate lang text :
  translate_loop translate lang (Py.split text delimiter) []
  = Return (imap (segment_result translate lang) (split_for_translation text)).
Proof. by rewrite translate_loop_spec. Qed.

Lemma translate_text_spec translate text lang :
  translate_text translate text lang
  = Return (Py.join delimiter
              (imap (segment_result translate lang) (split_for_translation text))).
Proof. unfold translate_text. by rewrite translate_loop_start. Qed.

Lemma imap_unchanged {A} (f : nat → A → A) (l : list A) :
  (∀ i x, l !! i = Some x → f i x = x) → imap f l = l.
Proof.
  intros Hf. apply list_eq. intros i. rewrite list_lookup_imap.
  destruct (l !! i) as [x|] eqn:Hx; simpl; [|done]. by rewrite Hf.
Qed.

Lemma filter_keeps_all {A} (P : A → Prop) `{!∀ x, Decision (P x)} (l : list A) :
  (∀ x, x ∈ l → P x) → filter P l = l.
Proof.
  induction l as [|x l IH]; intros Hall; [done|].
  rewrite filter_cons_True by (apply Hall; left).
  f_equal. apply IH. intros y Hy. apply Hall. by right.
Qed.

(** ** Translation stage: the claims *)

(** C1.  If the translation call for segment [i] fails, the translation
    stage stores the original segment [i] verbatim at position [i]; every
    other position holds the result of its own call, and is the same as
    with any backend that differs only on call [i]; the whole
    [translate_text] call returns the rejoined text instead of raising. *)
Theorem translate_text_keeps_failed_segment
    (translate : translator) (text lang : string) (i : nat) (segment : string) :
  split_for_translation text !! i = Some segment →
  raises (translate i lang segment) →
  ∃ out,
    translate_loop translate lang (Py.split text delimiter) [] = Return out
    ∧ translate_text translate text lang = Return (Py.join delimiter out)
    ∧ translate_text_async translate text lang = Return (Py.join delimiter out)
    ∧ length out = length (split_for_translation text)
    ∧ out !! i = Some segment
    ∧ (∀ j other, j ≠ i →
         split_for_translation text !! j = Some other →
         out !! j = Some (segment_result translate lang j other))
    ∧ (∀ translate' : translator,
         (∀ j s, j ≠ i → translate' j lang s = translate j lang s) →
         ∃ out',
           translate_loop translate' lang (Py.split text delimiter) []
           = Return out'
           ∧ ∀ j, j ≠ i → out' !! j = out !! j).
Proof.
  intros Hseg [e Hfail].
  exists (imap (segment_result translate lang) (split_for_translation text)).
  split_and!.
  - apply translate_loop_start.
  - apply translate_text_spec.
  - apply translate_text_spec.
  - apply length_imap.
  - rewrite list_lookup_imap, Hseg. simpl.
    unfold segment_result. by rewrite Hfail.
  - intros j other _ Hj. by rewrite list_lookup_imap, Hj.
  - intros translate' Hsame. eexists. split; [apply translate_loop_start|].
    intros j Hj. rewrite !list_lookup_imap.
    destruct (split_for_translation text !! j) as [other|]; simpl; [|done].
    unfold segment_result. by rewrite Hsame.
Qed.

Lemma translate_text_keeps_failed_segment_witness :
  translate_text (failing_at 1 uppercase_stub)
    "Hello world. This is a test." "es"
  = Return "HELLO WORLD. This is a test.".
Proof.
  destruct (translate_text_keeps_failed_segment
              (failing_at 1 uppercase_stub)
              "Hello world. This is a test." "es" 1 "This is a test.")
    as (out & Hloop & Htext & _).
  - reflexivity.
  - eexists. reflexivity.
  - rewrite Htext. vm_compute in Hloop. injection Hloop as <-. reflexivity.
Defined.

(** C5, as stated, fails: a segment is kept as it was cut, with its
    leading and trailing white space. *)
Lemma split_for_translation_not_trimmed :
  ¬ (∀ segment, segment ∈ split_for_translation "  a" → Py.strip segment = segment).
Proof.
  intros Htrim. specialize (Htrim "  a").
  assert ("  a" ∈ split_for_translation "  a") as Hin by (vm_compute; left).
  apply Htrim in Hin. vm_compute in Hin. discriminate.
Qed.

(** C5 (amended).  A text with [N] occurrences of [". "] is cut at each
    of them and nowhere else into [N+1] pieces; the segments handed to
    the backend are, in order and verbatim (not trimmed), the pieces that
    are neither empty nor made of white space only, hence at most [N+1]
    of them. *)
Theorem split_for_translation_segments (text : string) :
  let pieces := Py.split text delimiter in
  let segments := split_for_translation text in
  length pieces = Py.count_occurrences delimiter text + 1
  ∧ Py.join delimiter pieces = text
  ∧ segments `sublist_of` pieces
  ∧ length segments ≤ Py.count_occurrences delimiter text + 1
  ∧ (∀ segment, segment ∈ segments →
       segment ≠ "" ∧ Py.whitespace_only segment = false)
  ∧ (∀ piece, piece ∈ pieces → Py.whitespace_only piece = false →
       piece ∈ segments)
  ∧ (∀ lang, translate_loop identity_stub lang pieces [] = Return segments).
Proof.
  intros pieces segments. split_and!.
  - apply length_split.
  - apply join_split.
  - apply sublist_filter.
  - rewrite <-length_split. apply length_filter.
  - intros segment [Hkeep _]%list_elem_of_filter.
    rewrite truthy_strip in Hkeep. apply negb_true_iff in Hkeep.
    split; [|done]. by intros ->.
  - intros piece Hin Hws. apply list_elem_of_filter. split; [|done].
    by rewrite truthy_strip, Hws.
  - intros lang. unfold pieces. rewrite translate_loop_start. f_equal.
    by apply imap_unchanged.
Qed.

(** C9.  The translated sentences are rejoined with the delimiter used
    to split; with a backend that uppercases each segment the text
    ["Hello world. This is a test."] becomes
    ["HELLO WORLD. THIS IS A TEST."]; with a backend that returns its
    input, a text none of whose pieces is empty or white space only is
    returned unchanged. *)
Theorem translate_text_rejoins :
  (∀ translate text lang, ∃ out,
     translate_loop translate lang (Py.split text delimiter) [] = Return out
     ∧ translate_text translate text lang = Return (Py.join delimiter out))
  ∧ translate_text uppercase_stub "Hello world. This is a test." "es"
    = Return "HELLO WORLD. THIS IS A TEST."
  ∧ (∀ text lang,
       (∀ piece, piece ∈ Py.split text delimiter →
          Py.whitespace_only piece = false) →
       translate_text identity_stub text lang = Return text).
Proof.
  split_and!.
  - intros translate text lang. eexists. split.
    + apply translate_loop_start.
    + apply translate_text_spec.
  - reflexivity.
  - intros text lang Hpieces. rewrite translate_text_spec. f_equal.
    rewrite imap_unchanged by done.
    unfold split_for_translation. rewrite filter_keeps_all.
    + apply join_split.
    + intros piece Hin. by rewrite truthy_strip, Hpieces.
Qed.

Lemma translate_text_rejoins_witness :
  translate_text identity_stub "One.  Two . three" "es"
  = Return "One.  Two . three".
Proof.
  apply (proj2 (proj2 translate_text_rejoins)).
  intros piece Hin. vm_compute in Hin.
  repeat (apply elem_of_cons in Hin as [->|Hin]; [reflexivity|]).
  by apply elem_of_nil in Hin.
Defined.

(** ** Temporary file names *)

Lemma pretty_N_char_digit x : Py.isdigit (pretty_N_char x) = true.
Proof. unfold pretty_N_char. by repeat case_match. Qed.

Lemma pretty_N_go_digits x : ∀ s,
  Py.digits_only s = true → Py.digits_only (pretty_N_go x s) = true.
Proof.
  induction (N.lt_wf_0 x) as [x _ IH]. intros s Hs.
  destruct (decide (x = 0)%N) as [->|Hx]; [done|].
  rewrite pretty_N_go_step by lia. apply IH.
  - apply N.div_lt; lia.
  - simpl. by rewrite pretty_N_char_digit.
Qed.

Lemma pretty_N_digits (x : N) : Py.digits_only (pretty x) = true.
Proof.
  unfold pretty, pretty_N. case_decide; [done|]. by apply pretty_N_go_digits.
Qed.

Lemma pretty_nat_digits (i : nat) : Py.digits_only (pretty i) = true.
Proof. apply pretty_N_digits. Qed.

(** A run of digits followed by a non-digit determines both parts. *)
Lemma digits_then_mark a : ∀ b c d s t,
  Py.digits_only a = true → Py.digits_only b = true →
  Py.isdigit c = false → Py.isdigit d = false →
  a +:+ String c s = b +:+ String d t → a = b ∧ c = d ∧ s = t.
Proof.
  induction a as [|x a IH]; intros [|y b] c d s t Ha Hb Hc Hd Heq.
  - by injection Heq as -> ->.
  - injection Heq as -> _. simpl in Hb. by rewrite Hc in Hb.
  - injection Heq as -> _. simpl in Ha. by rewrite Hd in Ha.
  - rewrite !app_String in Heq. injection Heq as -> Heq.
    simpl in Ha, Hb. apply andb_true_iff in Ha as [_ Ha], Hb as [_ Hb].
    destruct (IH b c d s t Ha Hb Hc Hd Heq) as (-> & -> & ->). done.
Qed.

Lemma temp_file_name_service_inj pid pid' i j :
  temp_file_name Service pid i = temp_file_name Service pid' j →
  pid = pid' ∧ i = j.
Proof.
  unfold temp_file_name. intros Heq. apply (inj (String.append _)) in Heq.
  apply digits_then_mark in Heq as (Hi & _ & Heq);
    [|apply pretty_nat_digits..|done|done].
  apply digits_then_mark in Heq as (Hpid & _ & _);
    [|apply pretty_N_digits..|done|done].
  split; [by apply (inj pretty)|by apply (inj pretty)].
Qed.

Lemma temp_file_name_index_inj m pid i j :
  temp_file_name m pid i = temp_file_name m pid j → i = j.
Proof.
  destruct m.
  - unfold temp_file_name. intros Heq. apply (inj (String.append _)) in Heq.
    apply digits_then_mark in Heq as (Hi & _ & _);
      [|apply pretty_nat_digits..|done|done].
    by apply (inj pretty).
  - by intros [_ ?]%temp_file_name_service_inj.
Qed.

Lemma concat_file_not_temp m pid i :
  concat_file_name m pid ≠ temp_file_name m pid i.
Proof. destruct m; discriminate. Qed.


(** ** Plain names and the files they denote *)

Lemma all_chars_app f a b :
  all_chars f (a +:+ b) = all_chars f a && all_chars f b.
Proof.
  induction a as [|c a IH]; [done|].
  rewrite app_String. simpl. by rewrite IH, andb_assoc.
Qed.


Lemma isdigit_name_char c : Py.isdigit c = true → name_char c = true.
Proof. unfold Py.isdigit, name_char. simpl. by intros ->. Qed.

Lemma digits_name_chars s :
  Py.digits_only s = true → all_chars name_char s = true.
Proof.
  induction s as [|c s IH]; [done|]. simpl.
  intros [Hc Hs]%andb_true_iff. by rewrite (isdigit_name_char c Hc), IH.
Qed.

Lemma temp_file_name_chars m pid i :
  all_chars name_char (temp_file_name m pid i) = true.
Proof.
  destruct m; unfold temp_file_name; rewrite !all_chars_app;
    rewrite ?(digits_name_chars _ (pretty_nat_digits i)),
      ?(digits_name_chars _ (pretty_N_digits pid)); done.
Qed.





Lemma prefix_other_head a x c s :
  a ≠ c → String.prefix (String a x) (String c s) = false.
Proof. intros Hne. cbn [String.prefix]. by destruct (ascii_dec a c). Qed.

Lemma name_char_not_slash c : name_char c = true → "/"%char ≠ c.
Proof. by intros Hc <-. Qed.

(** A name without a slash is its own single component. *)
Lemma split_plain_name s :
  all_chars name_char s = true → Py.split s "/" = [s].
Proof.
  unfold Py.split. induction s as [|c s IH]; [done|].
  intros Hall. cbn [all_chars] in Hall.
  apply andb_true_iff in Hall as [Hc Hs].
  change (Py.split_from "/" 0 (String c s))
    with (if String.prefix "/" (String c s)
          then "" :: Py.split_from "/" (String.length "/" - 1) s
          else Py.cons_head c (Py.split_from "/" 0 s)).
  rewrite prefix_other_head by (by apply name_char_not_slash).
  by rewrite IH.
Qed.

Lemma Path_plain_name s :
  all_chars name_char s = true → s ≠ "" → s ≠ "." →
  Path s = {| path_root := ""; path_parts := [s] |}.
Proof.
  intros Hs Hne Hdot. unfold Path. rewrite split_plain_name by done.
  rewrite filter_cons_True, filter_nil by done.
  destruct s as [|c s]; [done|]. cbn [all_chars] in Hs.
  apply andb_true_iff in Hs as [Hc _].
  unfold Py.startswith.
  by rewrite !prefix_other_head by (by apply name_char_not_slash).
Qed.

Lemma normalize_parts_snoc absolute name : ∀ parts stack,
  name ≠ ".." →
  normalize_parts absolute stack (parts ++ [name])
  = normalize_parts absolute stack parts ++ [name].
Proof.
  induction parts as [|part parts IH]; intros stack Hname; simpl.
  - rewrite decide_False by done. simpl. by rewrite reverse_cons.
  - destruct (decide (part = "..")); [|by apply IH].
    destruct stack as [|top below]; [destruct absolute; by apply IH|].
    destruct (decide (top = "..")); by apply IH.
Qed.

Lemma join_snoc sep parts name :
  Py.join sep (parts ++ [name])
  = match parts with
    | [] => name
    | _ :: _ => Py.join sep parts +:+ sep +:+ name
    end.
Proof.
  induction parts as [|part [|next parts] IH]; [done|done|].
  change (Py.join sep ((part :: next :: parts) ++ [name]))
    with (part +:+ sep +:+ Py.join sep ((next :: parts) ++ [name])).
  rewrite IH.
  change (Py.join sep (part :: next :: parts))
    with (part +:+ sep +:+ Py.join sep (next :: parts)).
  by rewrite !app_assoc_string.
Qed.

Lemma path_str_parts root parts :
  parts ≠ [] →
  path_str {| path_root := root; path_parts := parts |}
  = root +:+ Py.join "/" parts.
Proof. unfold path_str. simpl. by destruct root, parts. Qed.

(** In a given working directory a plain name denotes the file of that
    name there. *)
Lemma abspath_plain_name cwd :
  ∃ dir, ∀ name,
    all_chars name_char name = true →
    name ≠ "" → name ≠ "." → name ≠ ".." →
    abspath cwd name = dir +:+ name.
Proof.
  set (base := normalize_parts (is_absolute (Path cwd)) []
                 (path_parts (Path cwd))).
  exists (path_root (Path cwd)
          +:+ match base with
              | [] => ""
              | _ :: _ => Py.join "/" base +:+ "/"
              end).
  intros n Hn Hn1 Hn2 Hn3. unfold abspath.
  rewrite (Path_plain_name n) by done.
  change (joinpath (Path cwd) {| path_root := ""; path_parts := [n] |})
    with {| path_root := path_root (Path cwd);
            path_parts := path_parts (Path cwd) ++ [n] |}.
  change (is_absolute _) with (is_absolute (Path cwd)).
  cbn [path_root path_parts].
  rewrite normalize_parts_snoc by done. fold base.
  rewrite path_str_parts by (by destruct base).
  rewrite join_snoc, app_assoc_string. f_equal.
  destruct base; [done|]. by rewrite !app_assoc_string.
Qed.

Lemma abspath_plain_inj cwd name other :
  all_chars name_char name = true →
  name ≠ "" → name ≠ "." → name ≠ ".." →
  all_chars name_char other = true →
  other ≠ "" → other ≠ "." → other ≠ ".." →
  abspath cwd name = abspath cwd other → name = other.
Proof.
  intros Hn Hn1 Hn2 Hn3 Ho Ho1 Ho2 Ho3 Heq.
  destruct (abspath_plain_name cwd) as [dir Hdir].
  rewrite !Hdir in Heq by done. by apply (inj (String.append dir)) in Heq.
Qed.

Lemma abspath_temp_inj cwd m pid i j :
  abspath cwd (temp_file_name m pid i) = abspath cwd (temp_file_name m pid j) →
  i = j.
Proof.
  intros Heq. apply (temp_file_name_index_inj m pid).
  revert Heq. apply abspath_plain_inj;
    try apply temp_file_name_chars; by destruct m.
Qed.


Lemma abspath_temp_fresh cwd m pid i j n :
  i < j →
  abspath cwd (temp_file_name m pid i)
  ∉ (abspath cwd <$> (temp_file_name m pid <$> seq j n)).
Proof.
  intros Hlt [name [Heq Hin]]%list_elem_of_fmap.
  apply list_elem_of_fmap in Hin as [k [-> Hk]].
  apply abspath_temp_inj in Heq as ->. apply elem_of_seq in Hk. lia.
Qed.


(** Spellings of one file, and names that leave the working
    directory. *)
Lemma abspath_examples :
  abspath "/work" "temp_0.mp3" = "/work/temp_0.mp3"
  ∧ abspath "/work" "./temp_0.mp3" = "/work/temp_0.mp3"
  ∧ abspath "/work" "/work/temp_0.mp3" = "/work/temp_0.mp3"
  ∧ abspath "/work" "out/../temp_0.mp3" = "/work/temp_0.mp3"
  ∧ abspath "/work" "../data//in.wav" = "/data/in.wav"
  ∧ abspath "/work" "/tmp/tmpab12.mp3" = "/tmp/tmpab12.mp3".
Proof. by vm_compute. Qed.

(** ** Looking up, writing and removing files *)

Lemma entry_insert d p c q : entry (<[p:=c]> d) q = entry d q.
Proof. reflexivity. Qed.

Lemma entry_delete d p q : entry (delete p d) q = entry d q.
Proof. reflexivity. Qed.

Lemma lookup_dir d p : d !! p = entries d !! abspath (dir_cwd d) p.
Proof. reflexivity. Qed.

Lemma lookup_dir_insert_eq d p q c :
  same_file d p q → <[p:=c]> d !! q = Some c.
Proof.
  unfold same_file. intros Hsame. rewrite lookup_dir. simpl.
  fold (entry d q). rewrite <-Hsame. apply lookup_insert_eq.
Qed.




Lemma same_file_insert d p c q r :
  same_file (<[p:=c]> d) q r ↔ same_file d q r.
Proof. done. Qed.

Lemma same_file_delete d p q r :
  same_file (delete p d) q r ↔ same_file d q r.
Proof. done. Qed.
(** ** One synthesis run, step by step *)

Lemma bind_run {A B} (m : M A) (k : A → M B) (w : world) :
  (m ≫= k) w
  = match m w with
    | (Return a, w') => k a w'
    | (Raise e, w') => (Raise e, w')
    end.
Proof. reflexivity. Qed.

Lemma saved_paths_app t1 t2 :
  saved_paths (t1 ++ t2) = saved_paths t1 ++ saved_paths t2.
Proof. apply omap_app. Qed.


Lemma dir_cwd_insert d p c : dir_cwd (<[p:=c]> d) = dir_cwd d.
Proof. reflexivity. Qed.


Lemma entries_insert d p c :
  entries (<[p:=c]> d) = <[abspath (dir_cwd d) p := c]> (entries d).
Proof. reflexivity. Qed.


(** The loop saves the chunks in order under the names of their
    ordinals, and stops at the first chunk whose synthesis fails, which
    may leave its file behind. *)
Lemma synthesize_chunks_trace B m pid lang chunks : ∀ i temp_files w,
  ∃ j new, j ≤ length chunks
    ∧ trace (synthesize_chunks B m pid lang i chunks temp_files w).2
      = trace w ++ new
    ∧ saved_paths new = temp_file_name m pid <$> seq i j
    ∧ match (synthesize_chunks B m pid lang i chunks temp_files w).1 with
      | Return names =>
          j = length chunks
          ∧ names = temp_files ++ (temp_file_name m pid <$> seq i j)
      | Raise _ => j < length chunks
      end.
Proof.
  induction chunks as [|chunk rest IH]; intros i acc w.
  - exists 0, []. simpl. by rewrite !app_nil_r.
  - cbn [synthesize_chunks]. rewrite bind_run. unfold tts_save.
    destruct (gtts B i chunk lang) as [a|e].
    + match goal with |- context [synthesize_chunks _ _ _ _ _ _ ?acc1 ?w1] =>
        destruct (IH (S i) acc1 w1) as (j & new & Hj & Htrace & Hnew & Hres) end.
      exists (S j), (SaveChunk (temp_file_name m pid i) :: new).
      split; [simpl; lia|]. split_and!.
      * rewrite Htrace. simpl. by rewrite <-app_assoc.
      * cbn [saved_paths omap list_omap seq fmap list_fmap].
        fold (saved_paths new). by rewrite Hnew.
      * destruct (synthesize_chunks _ _ _ _ _ _ _ _).1; [|simpl; lia].
        destruct Hres as [-> ->]. split; [done|].
        by rewrite <-app_assoc.
    + destruct (gtts_partial B i chunk lang) as [partial|].
      * exists 0, [LeaveChunk (temp_file_name m pid i)]. simpl.
        split; [lia|]. split; [done|]. split; [done|lia].
      * exists 0, []. simpl. rewrite app_nil_r.
        split; [lia|]. split; [done|]. split; [done|lia].
Qed.




Lemma synthesis_run B m pid text output_path lang w :
  synthesis B m pid text output_path lang w
  = synthesis_body B m pid text output_path lang w.
Proof.
  unfold synthesis, try_except_M.
  by destruct (synthesis_body B m pid text output_path lang w) as [[|] ?].
Qed.

Lemma chunks_of_empty : chunks_of "" = [].
Proof. by vm_compute. Qed.

Lemma chunks_of_short text :
  text ≠ "" → String.length text ≤ max_chunk_size → chunks_of text = [text].
Proof.
  intros Hne Hlen. unfold chunks_of. rewrite split_chunks_unfold.
  assert (0 < String.length text) by (destruct text; [done|simpl; lia]).
  replace ((String.length text + max_chunk_size - 1) / max_chunk_size) with 1.
  - simpl. by rewrite substring_all.
  - apply Nat.div_unique with (r := String.length text - 1); lia.
Qed.

Lemma lookup_dir_insert_same (d : directory) (p : string) (c : content) :
  <[p:=c]> d !! p = Some c.
Proof. by apply lookup_dir_insert_eq. Qed.

(** A run on a single chunk: the chunk is saved and renamed; or the
    rename is refused and the chunk file stays; or the synthesis fails,
    leaving at most the file it had opened. *)
Lemma synthesis_single B m pid text output_path lang chunk w :
  chunks_of text = [chunk] →
  let temp_file := temp_file_name m pid 0 in
  synthesis B m pid text output_path lang w
  = match gtts B 0 chunk lang with
    | Return a =>
        match rename_error B temp_file output_path with
        | None =>
            (Return (),
             {| files := <[output_path := Audio a]>
                           (delete temp_file
                              (<[temp_file := Audio a]> (files w)));
                trace := trace w ++ [SaveChunk temp_file;
                                     Rename temp_file output_path] |})
        | Some e =>
            (Raise e,
             {| files := <[temp_file := Audio a]> (files w);
                trace := trace w ++ [SaveChunk temp_file] |})
        end
    | Raise e =>
        match gtts_partial B 0 chunk lang with
        | Some partial =>
            (Raise e,
             {| files := <[temp_file := Audio partial]> (files w);
                trace := trace w ++ [LeaveChunk temp_file] |})
        | None => (Raise e, w)
        end
    end.
Proof.
  intros Hchunks temp_file.
  rewrite synthesis_run. unfold synthesis_body. rewrite Hchunks.
  cbn [synthesize_chunks]. rewrite !bind_run. unfold tts_save.
  destruct (gtts B 0 chunk lang) as [a|e];
    [|by destruct (gtts_partial B 0 chunk lang)].
  cbn [mret M_ret app length]. rewrite decide_False by lia.
  cbn [first_item]. rewrite bind_run. cbn [mret M_ret].
  unfold os_rename. cbn [files log_event set_files].
  rewrite lookup_dir_insert_same. fold temp_file.
  destruct (rename_error B temp_file output_path); [done|].
  unfold log_event, set_files. cbn [files trace].
  by rewrite <-app_assoc.
Qed.




Lemma synthesis_empty B m pid text output_path lang w :
  chunks_of text = [] →
  synthesis B m pid text output_path lang w = (Raise IndexError, w).
Proof.
  intros Hchunks. rewrite synthesis_run. unfold synthesis_body.
  by rewrite Hchunks.
Qed.



Lemma saved_paths_SaveChunk names : saved_paths (SaveChunk <$> names) = names.
Proof. induction names as [|p names IH]; simpl; [done|]. by f_equal. Qed.



Lemma saves_nothing_bind {A B} (op : M A) (k : A → M B) :
  saves_nothing op → (∀ a, saves_nothing (k a)) → saves_nothing (op ≫= k).
Proof.
  intros Hop Hk w. rewrite bind_run.
  destruct (Hop w) as (new1 & Htrace1 & Hsaved1).
  destruct (op w) as [[a|e] w1]; simpl in *.
  - destruct (Hk a w1) as (new2 & Htrace2 & Hsaved2).
    exists (new1 ++ new2). rewrite Htrace2, Htrace1, <-app_assoc.
    split; [done|]. by rewrite saved_paths_app, Hsaved1, Hsaved2.
  - by exists new1.
Qed.

Lemma saves_nothing_mret {A} (a : A) : saves_nothing (mret a).
Proof. intros w. exists []. by rewrite app_nil_r. Qed.

Lemma saves_nothing_raise {A} e : saves_nothing (raise (A:=A) e).
Proof. intros w. exists []. by rewrite app_nil_r. Qed.

Lemma saves_nothing_os_remove path : saves_nothing (os_remove path).
Proof.
  intros w. unfold os_remove. destruct (files w !! path).
  - by exists [Remove path].
  - exists []. by rewrite app_nil_r.
Qed.

Lemma saves_nothing_os_rename B src dst : saves_nothing (os_rename B src dst).
Proof.
  intros w. unfold os_rename.
  destruct (files w !! src); [destruct (rename_error B src dst)|].
  - exists []. by rewrite app_nil_r.
  - by exists [Rename src dst].
  - exists []. by rewrite app_nil_r.
Qed.

Lemma saves_nothing_cleanup_remove m path : saves_nothing (cleanup_remove m path).
Proof.
  destruct m; simpl; [apply saves_nothing_os_remove|].
  apply saves_nothing_bind.
  - intros w. exists []. by rewrite app_nil_r.
  - intros []; [apply saves_nothing_os_remove|apply saves_nothing_mret].
Qed.

Lemma saves_nothing_cleanup_all m names : saves_nothing (cleanup_all m names).
Proof.
  induction names as [|name rest IH]; simpl; [apply saves_nothing_mret|].
  apply saves_nothing_bind; [apply saves_nothing_cleanup_remove|done].
Qed.

Lemma saves_nothing_write_manifest concat_file names :
  saves_nothing (write_manifest concat_file names).
Proof. intros w. by exists [WriteManifest concat_file]. Qed.

Lemma saves_nothing_ffmpeg B concat_file output_path :
  saves_nothing (os_system_ffmpeg B concat_file output_path).
Proof.
  intros w. unfold os_system_ffmpeg.
  destruct (shell_word concat_file && shell_word output_path).
  - by eexists [_].
  - destruct (shell B _ _ _) as [[exit_code|e] after].
    + by eexists [_].
    + exists []. by rewrite app_nil_r.
Qed.

(** Whatever fails, the chunk files saved by a run are those of an
    initial part of the chunks, each under the name of its ordinal. *)
Lemma synthesis_saved_paths B m pid text output_path lang w :
  ∃ j, j ≤ length (chunks_of text)
    ∧ saved_paths (events_of (synthesis B m pid text output_path lang) w)
      = temp_file_name m pid <$> seq 0 j.
Proof.
  unfold events_of. rewrite synthesis_run. unfold synthesis_body.
  set (rest := λ temp_files : list string, if decide (1 < length temp_files) then _ else _).
  assert (∀ temp_files, saves_nothing (rest temp_files)) as Hrest.
  { intros temp_files. unfold rest. case_decide.
    - repeat (apply saves_nothing_bind; [|intros ?]);
        auto using saves_nothing_write_manifest, saves_nothing_ffmpeg,
          saves_nothing_cleanup_all, saves_nothing_cleanup_remove.
    - apply saves_nothing_bind; [|intros ?; apply saves_nothing_os_rename].
      destruct temp_files; [apply saves_nothing_raise|apply saves_nothing_mret]. }
  destruct (synthesize_chunks_trace B m pid lang (chunks_of text) 0 [] w)
    as (j & new1 & Hj & Htrace & Hnew1 & _).
  exists j. split; [done|].
  assert (∃ new, trace ((synthesize_chunks B m pid lang 0 (chunks_of text) []
                           ≫= rest) w).2
                 = trace w ++ new1 ++ new
                 ∧ saved_paths new = []) as (new & Hall & Hnew).
  { rewrite bind_run.
    destruct (synthesize_chunks B m pid lang 0 (chunks_of text) [] w)
      as [[names|e] w1]; simpl in *.
    - destruct (Hrest names w1) as (new & Hnew & Hsaved).
      exists new. by rewrite Hnew, Htrace, <-app_assoc.
    - exists []. by rewrite app_nil_r. }
  rewrite Hall, drop_app_length.
  by rewrite saved_paths_app, Hnew1, Hnew, app_nil_r.
Qed.


(** ** Synthesis stage: the claims *)







(** C6, as stated, fails: the command-line function names a chunk file
    by its ordinal alone, so runs in two processes save the same file;
    and two runs of the service on threads of one process share the
    process identifier, hence the names. *)
Lemma runs_share_temporary_names :
  saved_paths (events_of (text_to_speech echo_backends 101
                            "hola" "a.mp3" "es") empty_world)
  = ["temp_0.mp3"]
  ∧ saved_paths (events_of (text_to_speech echo_backends 202
                              "adios" "b.mp3" "es") empty_world)
    = ["temp_0.mp3"]
  ∧ saved_paths (events_of (text_to_speech_async echo_backends 101
                              "hola" "a.mp3" "es") empty_world)
    = ["temp_0_101.mp3"]
  ∧ saved_paths (events_of (text_to_speech_async echo_backends 101
                              "adios" "b.mp3" "es") empty_world)
    = ["temp_0_101.mp3"].
Proof. split_and!; by vm_compute. Qed.

(** C6 (amended).  In the service every chunk file is saved under the
    name [temp_<i>_<pid>.mp3], made of the chunk ordinal and of the
    identifier of the process; two runs in processes with different
    identifiers therefore never save a file under the same name, whatever
    the texts and whatever fails. *)
Theorem service_runs_in_distinct_processes_save_distinct_files
    (B1 B2 : backends) (pid1 pid2 : N)
    (text1 text2 out1 out2 lang1 lang2 : string) (w1 w2 : world) :
  pid1 ≠ pid2 →
  ∀ path,
    path ∈ saved_paths
             (events_of (text_to_speech_async B1 pid1 text1 out1 lang1) w1) →
    (∃ i, i < length (chunks_of text1)
          ∧ path = "temp_" +:+ pretty i +:+ "_" +:+ pretty pid1 +:+ ".mp3")
    ∧ path ∉ saved_paths
               (events_of (text_to_speech_async B2 pid2 text2 out2 lang2) w2).
Proof.
  intros Hpid path. unfold text_to_speech_async.
  destruct (synthesis_saved_paths B1 Service pid1 text1 out1 lang1 w1)
    as (j1 & Hj1 & ->).
  destruct (synthesis_saved_paths B2 Service pid2 text2 out2 lang2 w2)
    as (j2 & Hj2 & ->).
  intros [i [-> Hi]]%list_elem_of_fmap. apply elem_of_seq in Hi. split.
  - exists i. split; [lia|done].
  - intros [i' [Heq _]]%list_elem_of_fmap.
    by apply temp_file_name_service_inj in Heq as [? _].
Qed.

Lemma service_runs_in_distinct_processes_save_distinct_files_witness :
  "temp_0_101.mp3"
  ∉ saved_paths (events_of (text_to_speech_async echo_backends 202
                              "adios" "b.mp3" "es") empty_world).
Proof.
  apply (service_runs_in_distinct_processes_save_distinct_files
           echo_backends echo_backends 101 202
           "hola" "adios" "a.mp3" "b.mp3" "es" "es" empty_world empty_world).
  - discriminate.
  - vm_compute. left.
Defined.



(** C10.  The empty text gives no chunk, so no temporary file is made;
    the single-chunk branch is taken and raises [IndexError] on the empty
    list of temporary files, leaving the working directory and the
    output path as they were.  Hence a call that returns normally was
    given a non-empty text. *)
Theorem empty_text_raises_index_error
    (B : backends) (m : mode) (pid : N) (output_path lang : string) (w : world) :
  chunks_of "" = []
  ∧ synthesize_chunks B m pid lang 0 (chunks_of "") [] w = (Return [], w)
  ∧ synthesis B m pid "" output_path lang w = (Raise IndexError, w)
  ∧ text_to_speech B pid "" output_path lang w = (Raise IndexError, w)
  ∧ text_to_speech_async B pid "" output_path lang w = (Raise IndexError, w)
  ∧ (∀ text, (synthesis B m pid text output_path lang w).1 = Return () →
       text ≠ "").
Proof.
  split_and!.
  - apply chunks_of_empty.
  - by rewrite chunks_of_empty.
  - apply synthesis_empty, chunks_of_empty.
  - apply synthesis_empty, chunks_of_empty.
  - apply synthesis_empty, chunks_of_empty.
  - intros text Hret ->.
    by rewrite (synthesis_empty _ _ _ _ _ _ _ chunks_of_empty) in Hret.
Qed.

Lemma empty_text_raises_index_error_witness :
  "hola" ≠ "".
Proof.
  apply (proj2 (proj2 (proj2 (proj2 (proj2
           (empty_text_raises_index_error
              echo_backends CommandLine 101 "a.mp3" "es" empty_world)))))).
  by vm_compute.
Defined.
(** ** Upload validation: the claims *)

Lemma invalid_upload_iff (file : upload) :
  invalid_upload file = true
  ↔ (content_type file = None ∨ content_type file = Some "")
    ∨ (∃ declared,
         content_type file = Some declared
         ∧ Py.startswith declared "audio/" = false
         ∧ file_extension file ∉ allowed_extensions).
Proof.
  unfold invalid_upload. destruct (content_type file) as [declared|].
  - rewrite orb_true_iff, andb_true_iff, !negb_true_iff, bool_decide_eq_false.
    split.
    + intros [Hempty|[Hprefix Hext]].
      * left. right. by destruct declared.
      * right. by exists declared.
    + intros [[?|Hempty]|(declared' & Heq & Hprefix & Hext)]; [done| |].
      * left. by injection Hempty as ->.
      * right. by injection Heq as ->.
  - split; [by left; left|done].
Qed.

Lemma translate_audio_endpoint_400 S file lang :
  status (translate_audio_endpoint S file lang) = 400
  ↔ invalid_upload file = true.
Proof.
  unfold translate_audio_endpoint. destruct (invalid_upload file); [done|].
  destruct (named_temporary_file S _); [|done].
  destruct (_ ≫= _); simpl; split; done.
Qed.

Lemma translate_and_synthesize_endpoint_400 S file lang temp_output_path w :
  status (translate_and_synthesize_endpoint S file lang temp_output_path w).1
  = 400
  ↔ invalid_upload file = true.
Proof.
  unfold translate_and_synthesize_endpoint.
  destruct (invalid_upload file); [done|].
  destruct (_ ≫= _); simpl; [|split; done].
  destruct (text_to_speech_async _ _ _ _ _ _) as [[|] ?]; simpl; split; done.
Qed.

(** C8, as stated, fails: an upload that declares no content type is
    rejected with status 400 although its extension is on the
    allow-list. *)
Lemma upload_without_content_type_is_rejected :
  file_extension (Upload "clip.wav" None []) ∈ allowed_extensions
  ∧ (∀ S lang,
       status (translate_audio_endpoint S (Upload "clip.wav" None []) lang)
       = 400)
  ∧ (∀ S lang temp_output_path w,
       status (translate_and_synthesize_endpoint S (Upload "clip.wav" None [])
                 lang temp_output_path w).1
       = 400).
Proof.
  split_and!.
  - vm_compute. left.
  - intros S lang. by apply translate_audio_endpoint_400.
  - intros S lang temp_output_path w.
    by apply translate_and_synthesize_endpoint_400.
Qed.

(** C8 (amended).  An upload to [/translate-audio] or
    [/translate-and-synthesize] is rejected with status 400 if and only
    if it declares no content type or an empty one, or its content type
    does not start with [audio/] and its lower-cased extension is not one
    of .wav, .mp3, .aiff, .flac, .ogg, .m4a, .mp4. *)
Theorem upload_rejected_iff
    (S : service) (file : upload) (lang temp_output_path : string) (w : world) :
  let untyped := content_type file = None ∨ content_type file = Some "" in
  let not_audio :=
    ∃ declared,
      content_type file = Some declared
      ∧ Py.startswith declared "audio/" = false
      ∧ file_extension file ∉ allowed_extensions in
  (status (translate_audio_endpoint S file lang) = 400 ↔ untyped ∨ not_audio)
  ∧ (status (translate_and_synthesize_endpoint S file lang temp_output_path w).1
     = 400 ↔ untyped ∨ not_audio).
Proof.
  intros untyped not_audio. split.
  - rewrite translate_audio_endpoint_400. apply invalid_upload_iff.
  - rewrite translate_and_synthesize_endpoint_400. apply invalid_upload_iff.
Qed.

(** * Further properties of the code *)

(** ** Splitting and rejoining *)

Lemma prefix_app a : ∀ s t,
  String.prefix a s = true → String.prefix a (s +:+ t) = true.
Proof.
  induction a as [|x a IH]; intros s t.
  - intros _. by destruct (s +:+ t).
  - destruct s as [|y s]; [done|].
    rewrite app_String. cbn [String.prefix].
    destruct (ascii_dec x y); [apply IH|done].
Qed.

(** Whether the delimiter starts a string depends on its first two
    characters only. *)
Lemma prefix_delimiter_two c d s t :
  String.prefix delimiter (String c (String d s))
  = String.prefix delimiter (String c (String d t)).
Proof.
  unfold delimiter. cbn [String.prefix].
  destruct (ascii_dec "." c); [|done].
  destruct (ascii_dec " " d); [|done]. by destruct s, t.
Qed.

Lemma prefix_delimiter_dot c :
  String.prefix delimiter (String c (String "." ""))
  = false.
Proof.
  unfold delimiter. cbn [String.prefix]. by destruct (ascii_dec "." c).
Qed.

Lemma split_from_first_prefix sep k s :
  sep ≠ "" →
  ∃ piece pieces tail,
    Py.split_from sep k s = piece :: pieces ∧ Py.drop k s = piece +:+ tail.
Proof.
  intros Hsep. pose proof (join_split_from sep s k Hsep) as Hjoin.
  destruct (Py.split_from sep k s) as [|piece [|next pieces]] eqn:Hsplit.
  - by apply split_from_not_nil in Hsplit.
  - exists piece, [], "". split; [done|]. by rewrite app_empty_r.
  - exists piece, (next :: pieces), (sep +:+ Py.join sep (next :: pieces)).
    split; [done|]. by rewrite <-Hjoin.
Qed.

(** No piece of a split contains the delimiter. *)
Lemma split_from_pieces_no_delimiter s : ∀ k piece,
  piece ∈ Py.split_from delimiter k s →
  Py.count_occurrences delimiter piece = 0.
Proof.
  induction s as [|c s IH]; intros k piece; cbn [Py.split_from].
  - by intros ->%list_elem_of_singleton.
  - destruct k as [|k]; [|apply IH].
    destruct (String.prefix delimiter (String c s)) eqn:Hpre.
    + intros [->|Hin]%elem_of_cons; [done|]. by apply IH in Hin.
    + destruct (split_from_first_prefix delimiter 0 s ltac:(done))
        as (first & pieces & tail & Hsplit & Htail).
      rewrite Hsplit. cbn [Py.cons_head].
      intros [->|Hin]%elem_of_cons.
      * cbn [Py.count_occurrences].
        rewrite (IH 0 first) by (rewrite Hsplit; left).
        destruct (String.prefix delimiter (String c first)) eqn:Hfirst; [|done].
        apply (prefix_app _ _ tail) in Hfirst.
        rewrite app_String, <-Htail in Hfirst.
        change (Py.drop 0 s) with s in Hfirst. congruence.
      * apply (IH 0). rewrite Hsplit. by right.
Qed.

Lemma split_from_single piece :
  Py.count_occurrences delimiter piece = 0 →
  Py.split_from delimiter 0 piece = [piece].
Proof.
  induction piece as [|c piece IH]; [done|].
  cbn [Py.count_occurrences Py.split_from].
  destruct (String.prefix delimiter (String c piece)); [done|].
  intros Hrest. by rewrite IH.
Qed.

Lemma split_from_piece_then piece rest :
  Py.count_occurrences delimiter piece = 0 →
  Py.split_from delimiter 0 (piece +:+ delimiter +:+ rest)
  = piece :: Py.split_from delimiter 0 rest.
Proof.
  induction piece as [|c piece IH]; [by destruct rest|].
  cbn [Py.count_occurrences]. rewrite app_String.
  destruct (String.prefix delimiter (String c piece)) eqn:Hpre; [done|].
  intros Hrest. cbn [Py.split_from].
  assert (String.prefix delimiter (String c (piece +:+ delimiter +:+ rest))
          = false) as ->.
  { destruct piece as [|d piece].
    - change (String.prefix delimiter (String c (String "." (String " " rest)))
              = false).
      rewrite (prefix_delimiter_two c "." (String " " rest) "").
      apply prefix_delimiter_dot.
    - rewrite app_String.
      by rewrite (prefix_delimiter_two c d _ piece). }
  by rewrite IH.
Qed.

(** Splitting what was joined gives the pieces back, provided none of
    them contains the delimiter. *)
Lemma split_join pieces :
  pieces ≠ [] →
  (∀ piece, piece ∈ pieces → Py.count_occurrences delimiter piece = 0) →
  Py.split (Py.join delimiter pieces) delimiter = pieces.
Proof.
  unfold Py.split.
  induction pieces as [|piece [|next pieces] IH]; intros Hne Hfree; [done|..].
  - apply split_from_single, Hfree. left.
  - rewrite join_cons by done.
    rewrite split_from_piece_then by (apply Hfree; left).
    f_equal. apply IH; [done|]. intros q Hq. apply Hfree. by right.
Qed.

Lemma split_for_translation_no_delimiter text segment :
  segment ∈ split_for_translation text →
  Py.count_occurrences delimiter segment = 0.
Proof.
  intros [_ Hin]%list_elem_of_filter.
  by apply split_from_pieces_no_delimiter in Hin.
Qed.

(** ** Translation stage: further properties *)

Lemma filter_split_for_translation text :
  filter (λ sentence, Py.truthy (Py.strip sentence) = true)
    (split_for_translation text)
  = split_for_translation text.
Proof.
  apply filter_keeps_all. by intros sentence [? _]%list_elem_of_filter.
Qed.

Lemma translate_text_identity text lang :
  translate_text identity_stub text lang
  = Return (Py.join delimiter (split_for_translation text)).
Proof. rewrite translate_text_spec. by rewrite imap_unchanged. Qed.

(** X1.  When every call to the translation backend fails, the call
    still returns: the result is the text rebuilt from its non-blank
    sentences, the same as with a backend that returns its input; it is
    the input text itself when no piece is blank. *)
Theorem translate_text_total_outage
    (translate : translator) (text lang : string) :
  (∀ i sentence, raises (translate i lang sentence)) →
  translate_text translate text lang
  = Return (Py.join delimiter (split_for_translation text))
  ∧ translate_text translate text lang = translate_text identity_stub text lang
  ∧ ((∀ piece, piece ∈ Py.split text delimiter →
        Py.whitespace_only piece = false) →
     translate_text translate text lang = Return text).
Proof.
  intros Hdown.
  assert (translate_text translate text lang
          = Return (Py.join delimiter (split_for_translation text))) as Hout.
  { rewrite translate_text_spec. f_equal. f_equal. apply imap_unchanged.
    intros i sentence _. unfold segment_result.
    by destruct (Hdown i sentence) as [e ->]. }
  split_and!; [done|by rewrite translate_text_identity|].
  intros Hpieces. rewrite Hout. f_equal.
  unfold split_for_translation. rewrite filter_keeps_all; [apply join_split|].
  intros piece Hin. by rewrite truthy_strip, Hpieces.
Qed.

Lemma translate_text_total_outage_witness :
  translate_text (λ _ _ _, Raise (CollaboratorError "unreachable"))
    "Hello world. This is a test." "es"
  = Return "Hello world. This is a test.".
Proof.
  apply (translate_text_total_outage
           (λ _ _ _, Raise (CollaboratorError "unreachable"))
           "Hello world. This is a test." "es").
  - intros i sentence. by eexists.
  - intros piece Hin. vm_compute in Hin.
    repeat (apply elem_of_cons in Hin as [->|Hin]; [reflexivity|]).
    by apply elem_of_nil in Hin.
Defined.

(** X2.  A text all of whose pieces are empty or white space only (in
    particular an empty or blank text) is translated to the empty
    string, whatever the backend would answer: no sentence is kept. *)
Theorem translate_text_blank (translate : translator) (text lang : string) :
  (∀ piece, piece ∈ Py.split text delimiter →
     Py.whitespace_only piece = true) →
  split_for_translation text = []
  ∧ translate_text translate text lang = Return "".
Proof.
  intros Hblank.
  assert (split_for_translation text = []) as Hnone.
  { unfold split_for_translation.
    induction (Py.split text delimiter) as [|piece pieces IH]; [done|].
    rewrite filter_cons_False.
    - apply IH. intros q Hq. apply Hblank. by right.
    - rewrite truthy_strip, Hblank by left. done. }
  split; [done|]. by rewrite translate_text_spec, Hnone.
Qed.

Lemma translate_text_blank_witness :
  translate_text uppercase_stub "  .  " "es" = Return "".
Proof.
  apply (translate_text_blank uppercase_stub "  .  " "es").
  intros piece Hin. vm_compute in Hin.
  repeat (apply elem_of_cons in Hin as [->|Hin]; [reflexivity|]).
  by apply elem_of_nil in Hin.
Defined.

(** X3.  With a backend that returns its input, translating is
    idempotent: the result of a first pass (the text without its blank
    sentences) is returned unchanged by a second pass. *)
Theorem translate_text_identity_idempotent (text lang : string) :
  ∃ result,
    translate_text identity_stub text lang = Return result
    ∧ translate_text identity_stub result lang = Return result.
Proof.
  exists (Py.join delimiter (split_for_translation text)).
  split; [apply translate_text_identity|].
  rewrite translate_text_identity. f_equal.
  destruct (split_for_translation text) as [|segment segments] eqn:Hsegs;
    [done|].
  unfold split_for_translation at 1. rewrite split_join.
  - by rewrite <-Hsegs, filter_split_for_translation.
  - done.
  - intros piece Hin. rewrite <-Hsegs in Hin.
    by apply split_for_translation_no_delimiter in Hin.
Qed.

(** X4.  No sentence handed to the translation backend contains the
    delimiter: every occurrence of [". "] in the text is a cut. *)
Theorem segments_contain_no_delimiter (text segment : string) :
  segment ∈ split_for_translation text →
  Py.count_occurrences delimiter segment = 0
  ∧ ∀ tail, String.prefix delimiter (Py.drop tail segment) = false.
Proof.
  intros Hin. apply split_for_translation_no_delimiter in Hin.
  split; [done|].
  revert Hin. induction segment as [|c segment IH]; intros Hcount tail.
  - by destruct tail.
  - cbn [Py.count_occurrences] in Hcount.
    destruct (String.prefix delimiter (String c segment)) eqn:Hpre; [done|].
    destruct tail as [|tail]; [done|]. by apply IH.
Qed.

Lemma segments_contain_no_delimiter_witness :
  Py.count_occurrences delimiter "This is a test." = 0.
Proof.
  apply (segments_contain_no_delimiter
           "Hello world. This is a test." "This is a test.").
  vm_compute. right. left.
Defined.

(** ** Synthesis stage: further properties *)

Lemma NoDup_temp_file_names m pid i n :
  NoDup (temp_file_name m pid <$> seq i n).
Proof.
  apply NoDup_fmap_2_strong; [|apply NoDup_seq].
  intros j k _ _. apply temp_file_name_index_inj.
Qed.

(** The loop stops at the first chunk whose synthesis fails; the chunks
    before it have been saved, and the failed save may have left its
    file. *)
Lemma synthesize_chunks_fail B m pid lang chunks : ∀ i temp_files w k chunk e,
  chunks !! k = Some chunk →
  gtts B (i + k) chunk lang = Raise e →
  (∀ j c, j < k → chunks !! j = Some c → ¬ raises (gtts B (i + j) c lang)) →
  let cwd := dir_cwd (files w) in
  let names := temp_file_name m pid <$> seq i k in
  let failed := temp_file_name m pid (i + k) in
  let left_behind := gtts_partial B (i + k) chunk lang in
  ∃ w',
    synthesize_chunks B m pid lang i chunks temp_files w = (Raise e, w')
    ∧ trace w' = trace w ++ (SaveChunk <$> names) ++ leftover left_behind failed
    ∧ dir_cwd (files w') = cwd
    ∧ (∀ key,
         key ∉ (abspath cwd
                  <$> (temp_file_name m pid <$> seq i (touched left_behind k))) →
         entries (files w') !! key = entries (files w) !! key)
    ∧ (∀ j c, j < k → chunks !! j = Some c →
         entries (files w') !! abspath cwd (temp_file_name m pid (i + j))
         = Some (Audio (produced (gtts B (i + j) c lang))))
    ∧ (∀ partial, left_behind = Some partial →
         entries (files w') !! abspath cwd failed = Some (Audio partial)).
Proof.
  induction chunks as [|first rest IH];
    intros i acc w k chunk e Hk Hfail Hok cwd names failed left_behind;
    [done|].
  cbn [synthesize_chunks]. rewrite bind_run. unfold tts_save.
  destruct k as [|k].
  - injection Hk as ->. unfold failed, left_behind, names.
    rewrite Nat.add_0_r in *. rewrite Hfail.
    destruct (gtts_partial B i chunk lang) as [partial|].
    + eexists. split; [done|]. cbn [files trace log_event set_files].
      split_and!; [done|done| | |].
      * intros key Hkey. rewrite entries_insert. fold cwd.
        rewrite lookup_insert_ne; [done|]. intros <-. apply Hkey. left.
      * intros j c Hj. lia.
      * intros partial' [= <-]. rewrite entries_insert. fold cwd.
        by rewrite lookup_insert_eq.
    + exists w. simpl. rewrite app_nil_r.
      split_and!; [done..| |done]. intros j c Hj. lia.
  - pose proof (Hok 0 first ltac:(lia) eq_refl) as Hfirst.
    rewrite Nat.add_0_r in Hfirst.
    destruct (gtts B i first lang) as [a|e'] eqn:Hgtts;
      [|by destruct Hfirst; eexists].
    match goal with |- context [synthesize_chunks _ _ _ _ _ _ ?acc1 ?w1] =>
      destruct (IH (S i) acc1 w1 k chunk e)
        as (w' & Hrun & Htrace & Hcwd & Hother & Hsaved & Hleft)
    end.
    { done. }
    { by rewrite Nat.add_succ_comm. }
    { intros j c Hj Hc. rewrite Nat.add_succ_comm. apply (Hok (S j)); [lia|done]. }
    cbn [files log_event set_files] in Hcwd, Hother, Hsaved, Hleft.
    rewrite dir_cwd_insert in Hcwd, Hother, Hsaved, Hleft.
    fold cwd in Hcwd, Hother, Hsaved, Hleft.
    rewrite entries_insert in Hother. fold cwd in Hother.
    rewrite Nat.add_succ_comm in Htrace, Hother, Hleft.
    fold failed left_behind in Htrace, Hother, Hleft.
    exists w'. unfold names. cbn [seq fmap list_fmap]. split_and!.
    + done.
    + rewrite Htrace. simpl. by rewrite <-!app_assoc.
    + done.
    + intros key Hkey.
      assert (key ≠ abspath cwd (temp_file_name m pid i)
              ∧ key ∉ (abspath cwd
                         <$> (temp_file_name m pid
                                <$> seq (S i) (touched left_behind k))))
        as [Hne Hnotin].
      { destruct left_behind; cbn [touched seq fmap list_fmap] in *;
          by apply not_elem_of_cons in Hkey. }
      rewrite Hother by done. by rewrite lookup_insert_ne.
    + intros [|j] c Hj Hc.
      * injection Hc as <-. rewrite Nat.add_0_r, Hgtts. simpl.
        rewrite Hother by (apply abspath_temp_fresh; lia).
        by rewrite lookup_insert_eq.
      * rewrite <-Nat.add_succ_comm. apply Hsaved; [lia|done].
    + done.
Qed.

(** X5.  If the synthesis of chunk [k] is the first to fail, the call
    raises that failure at once: exactly the chunks before [k] have been
    saved and stay in the working directory, together with the file that
    the failed save had opened, if it got that far; no manifest is
    written, no concatenation is run, and every file that is none of
    these chunk files (the output among them) is as before. *)
Theorem synthesis_stops_at_first_failure
    (B : backends) (m : mode) (pid : N) (text output_path lang : string)
    (w : world) (k : nat) (chunk : string) (e : exn) :
  chunks_of text !! k = Some chunk →
  gtts B k chunk lang = Raise e →
  (∀ j c, j < k → chunks_of text !! j = Some c → ¬ raises (gtts B j c lang)) →
  let run := synthesis B m pid text output_path lang in
  let names := temp_file_name m pid <$> seq 0 k in
  let failed := temp_file_name m pid k in
  let left_behind := gtts_partial B k chunk lang in
  (run w).1 = Raise e
  ∧ events_of run w = (SaveChunk <$> names) ++ leftover left_behind failed
  ∧ (∀ j c, j < k → chunks_of text !! j = Some c →
       files (run w).2 !! temp_file_name m pid j
       = Some (Audio (produced (gtts B j c lang))))
  ∧ (∀ partial, left_behind = Some partial →
       files (run w).2 !! failed = Some (Audio partial))
  ∧ (∀ path,
       (∀ j, j < touched left_behind k →
          ¬ same_file (files w) (temp_file_name m pid j) path) →
       files (run w).2 !! path = files w !! path).
Proof.
  intros Hk Hfail Hok run names failed left_behind. unfold run, events_of.
  destruct (synthesize_chunks_fail B m pid lang (chunks_of text) 0 [] w k chunk e)
    as (w' & Hrun & Htrace & Hcwd & Hother & Hsaved & Hleft); [done..|].
  cbn [Nat.add] in *. fold failed left_behind in Htrace, Hother, Hleft.
  rewrite synthesis_run. unfold synthesis_body. rewrite bind_run, Hrun.
  cbn [fst snd]. split_and!.
  - done.
  - by rewrite Htrace, drop_app_length.
  - intros j c Hj Hc. rewrite lookup_dir, Hcwd. by apply Hsaved.
  - intros partial Hpartial. rewrite lookup_dir, Hcwd. by apply Hleft.
  - intros path Hpath. rewrite lookup_dir, Hcwd, Hother; [done|].
    intros (name & Heq & Hin)%list_elem_of_fmap.
    apply list_elem_of_fmap in Hin as (j & -> & Hj). apply elem_of_seq in Hj.
    apply (Hpath j); [lia|done].
Qed.

Lemma synthesis_stops_at_first_failure_witness :
  events_of (text_to_speech_async (failing_chunk 1 echo_backends) 7
               long_text "out.mp3" "es") empty_world
  = [SaveChunk "temp_0_7.mp3"; LeaveChunk "temp_1_7.mp3"].
Proof.
  refine (proj1 (proj2 (synthesis_stops_at_first_failure
            (failing_chunk 1 echo_backends) Service 7 long_text "out.mp3" "es"
            empty_world 1 "a" (CollaboratorError "synthesis failed") _ _ _))).
  - by vm_compute.
  - reflexivity.
  - intros j c Hj _ [e' He']. assert (j = 0) as -> by lia. discriminate.
Defined.







Lemma leaves_alone_raise {A} cwd keep e : leaves_alone cwd keep (raise (A:=A) e).
Proof. by intros w Hcwd. Qed.













Lemma split_chunks_sizes cap text k chunk :
  0 < cap →
  split_chunks cap text !! k = Some chunk →
  k * cap < String.length text
  ∧ String.length chunk = cap `min` (String.length text - k * cap)
  ∧ (S k < length (split_chunks cap text) → String.length chunk = cap).
Proof.
  intros Hcap Hk.
  pose proof (lookup_lt_Some _ _ _ Hk) as Hlt.
  rewrite length_split_chunks in *.
  apply split_chunks_lookup in Hk as ->.
  pose proof (Nat.Div0.mul_div_le (String.length text + cap - 1) cap) as Hdiv.
  set (n := (String.length text + cap - 1) / cap) in *.
  rewrite substring_length. split_and!; [nia|done|].
  intros Hnext. assert ((k + 2) * cap ≤ String.length text + cap - 1) by nia.
  nia.
Qed.

(** X9.  Every chunk handed to the synthesis backend is non-empty and
    has at most 5000 characters; every chunk but the last has exactly
    5000, and the last one has the characters that remain. *)
Theorem chunks_are_full_but_last (text : string) (k : nat) (chunk : string) :
  chunks_of text !! k = Some chunk →
  chunk ≠ ""
  ∧ String.length chunk ≤ max_chunk_size
  ∧ (S k < length (chunks_of text) → String.length chunk = max_chunk_size)
  ∧ (S k = length (chunks_of text) →
     String.length chunk = String.length text - k * max_chunk_size).
Proof.
  intros Hk. unfold chunks_of in *.
  assert (0 < max_chunk_size) as Hcap by (unfold max_chunk_size; lia).
  destruct (split_chunks_sizes _ _ _ _ Hcap Hk) as (Hstart & Hlen & Hfull).
  split_and!.
  - intros ->. cbn [String.length] in Hlen. lia.
  - lia.
  - done.
  - intros Hlast. rewrite length_split_chunks in Hlast.
    pose proof (chunk_count_covers (String.length text) max_chunk_size Hcap).
    rewrite <-Hlast in *. lia.
Qed.

Lemma chunks_are_full_but_last_witness :
  String.length (Py.repeat_char "a" 5000) = max_chunk_size.
Proof.
  apply (chunks_are_full_but_last long_text 0 (Py.repeat_char "a" 5000)).
  - by vm_compute.
  - by vm_compute.
Defined.

(** X10.  Within one run the chunk files have pairwise distinct names,
    none of which is the name of the manifest, in the command-line tool
    as in the service: no chunk overwrites another one or the manifest. *)
Theorem temporary_names_of_a_run_are_distinct (m : mode) (pid : N) (n : nat) :
  NoDup (concat_file_name m pid :: (temp_file_name m pid <$> seq 0 n))
  ∧ ∀ i j, temp_file_name m pid i = temp_file_name m pid j ↔ i = j.
Proof.
  split.
  - apply NoDup_cons. split; [|apply NoDup_temp_file_names].
    intros [i [Heq _]]%list_elem_of_fmap. by apply concat_file_not_temp in Heq.
  - intros i j. split; [apply temp_file_name_index_inj|by intros ->].
Qed.


(** ** The unquoted command line *)




(** ** The endpoints: further properties *)

(** X11.  For an upload that passes the validation, [/translate-audio]
    first makes the temporary copy; if that fails the error escapes the
    handler (the file is made before the [try]) and the answer is an
    unhandled 500, Whisper not being called.  Once the temporary file
    exists, the answer is 500 exactly when storing the upload or the
    transcription fails, and 200 otherwise.  Failures of the translation
    backend never produce an error status: the answer is 200 and
    [translated_text] carries, for each sentence, its translation or the
    sentence itself. *)
Theorem translate_audio_endpoint_outcome
    (S : service) (file : upload) (lang : string) :
  invalid_upload file = false →
  let answer := translate_audio_endpoint S file lang in
  let created := named_temporary_file S (path_suffix (filename file)) in
  (status answer = 200 ∨ status answer = 500)
  ∧ (∀ e, created = Raise e → answer = Unhandled e)
  ∧ ∀ temp_audio,
      created = Return temp_audio →
      (answer = HTTPException 500
       ↔ raises (store_upload S temp_audio (contents file))
         ∨ raises (whisper_transcribe S (contents file)))
      ∧ (status answer = 200
         ↔ ¬ raises (store_upload S temp_audio (contents file))
           ∧ ¬ raises (whisper_transcribe S (contents file)))
      ∧ ∀ transcribed,
          store_upload S temp_audio (contents file) = Return () →
          whisper_transcribe S (contents file) = Return transcribed →
          answer
          = Ok200 {| original_text := transcribed;
                     translated_text :=
                       Py.join delimiter
                         (imap (segment_result (google_translate S) lang)
                            (split_for_translation transcribed));
                     target_language := lang;
                     message := "Translation completed successfully" |}.
Proof.
  intros Hvalid answer created.
  unfold answer, translate_audio_endpoint, transcribe_audio_async.
  rewrite Hvalid. fold created.
  destruct created as [temp|e0]; [|split_and!; [by right|by intros ? [= ->]|done]].
  destruct (store_upload S temp (contents file)) as [[]|e1] eqn:Hstore;
    [destruct (whisper_transcribe S (contents file)) as [t|e2] eqn:Htext|];
    simpl.
  - unfold translate_text_async. rewrite translate_text_spec. simpl.
    split_and!; [by left|done|]. intros temp' [= <-]. rewrite Hstore.
    split_and!.
    + split; [done|]. by intros [[e He]|[e He]].
    + split; [|done]. intros _. split; by intros [e He].
    + by intros transcribed _ [= ->].
  - split_and!; [by right|done|]. intros temp' [= <-]. rewrite Hstore.
    split_and!; [|split; [done|]|done].
    + split; [|done]. intros _. right. by eexists.
    + intros [_ []]. by eexists.
  - split_and!; [by right|done|]. intros temp' [= <-]. rewrite Hstore.
    split_and!; [|split; [done|]|done].
    + split; [|done]. intros _. left. by eexists.
    + intros [[] _]. by eexists.
Qed.

Lemma translate_audio_endpoint_outcome_witness :
  status (translate_audio_endpoint
            {| whisper_transcribe := λ _, Return "Hello world. This is a test.";
               google_translate := failing_at 0 uppercase_stub;
               speech := echo_backends; os_getpid := 7;
               named_temporary_file := λ suffix, Return ("/tmp/tmpk3x9" +:+ suffix);
               store_upload := λ _ _, Return () |}
            (Upload "clip.wav" (Some "audio/x-wav") []) "es")
  = 200.
Proof.
  destruct (translate_audio_endpoint_outcome
              {| whisper_transcribe := λ _, Return "Hello world. This is a test.";
                 google_translate := failing_at 0 uppercase_stub;
                 speech := echo_backends; os_getpid := 7;
                 named_temporary_file :=
                   λ suffix, Return ("/tmp/tmpk3x9" +:+ suffix);
                 store_upload := λ _ _, Return () |}
              (Upload "clip.wav" (Some "audio/x-wav") []) "es")
    as (_ & _ & Hmade).
  - reflexivity.
  - destruct (Hmade _ eq_refl) as (_ & _ & Hbody).
    by rewrite (Hbody _ eq_refl eq_refl).
Defined.

Lemma translate_text_async_blank translate text lang :
  (∀ piece, piece ∈ Py.split text delimiter →
     Py.whitespace_only piece = true) →
  translate_text_async translate text lang = Return "".
Proof.
  intros Hblank. unfold translate_text_async. rewrite translate_text_spec.
  assert (split_for_translation text = []) as ->; [|done].
  unfold split_for_translation.
  induction (Py.split text delimiter) as [|piece pieces IH]; [done|].
  rewrite filter_cons_False.
  - apply IH. intros q Hq. apply Hblank. by right.
  - rewrite truthy_strip, Hblank by left. done.
Qed.

(** X12.  When the transcription of a valid upload is empty or made of
    blank sentences only (silence), [/translate-and-synthesize] answers
    500: the translated text is empty, the synthesis raises [IndexError],
    and nothing is written. *)
Theorem translate_and_synthesize_silence
    (S : service) (file : upload) (lang temp_output_path : string)
    (w : world) (transcribed : string) :
  invalid_upload file = false →
  whisper_transcribe S (contents file) = Return transcribed →
  (∀ piece, piece ∈ Py.split transcribed delimiter →
     Py.whitespace_only piece = true) →
  translate_and_synthesize_endpoint S file lang temp_output_path w
  = (HTTPException 500, w).
Proof.
  intros Hvalid Htext Hblank.
  unfold translate_and_synthesize_endpoint, transcribe_audio_async.
  rewrite Hvalid, Htext.
  destruct (named_temporary_file S _) as [temp|e0]; [|done]. simpl.
  destruct (store_upload S temp (contents file)) as [[]|e1]; [|done]. simpl.
  rewrite translate_text_async_blank by done.
  unfold text_to_speech_async.
  by rewrite (synthesis_empty _ _ _ _ _ _ _ chunks_of_empty).
Qed.

Lemma translate_and_synthesize_silence_witness :
  translate_and_synthesize_endpoint
    {| whisper_transcribe := λ _, Return " ";
       google_translate := uppercase_stub;
       speech := echo_backends; os_getpid := 7;
       named_temporary_file := λ suffix, Return ("/tmp/tmpk3x9" +:+ suffix);
       store_upload := λ _ _, Return () |}
    (Upload "clip.wav" (Some "audio/x-wav") []) "es" "/tmp/tmpab12.mp3"
    empty_world
  = (HTTPException 500, empty_world).
Proof.
  apply (translate_and_synthesize_silence _ _ _ _ _ " ").
  - reflexivity.
  - reflexivity.
  - intros piece Hin. vm_compute in Hin.
    repeat (apply elem_of_cons in Hin as [->|Hin]; [reflexivity|]).
    by apply elem_of_nil in Hin.
Defined.



(** ** The command-line entry point *)

Lemma transcribe_audio_run E audio_path :
  transcribe_audio E audio_path = whisper_base E audio_path.
Proof. unfold transcribe_audio. by destruct (whisper_base E audio_path). Qed.

(** X14.  The exit status of [main].  When the parser exits (status 2
    on a malformed command line, 0 after [--help]) that is the status
    of the process and nothing else has been done: the arguments are
    parsed before the [try].  Once the arguments are parsed the status
    is 0 or 1, and 0 exactly when the input file exists, the
    transcription returns and the synthesis of the translated transcript
    returns; failures of the translation backend do not change it.  When
    the input file is missing or the transcription fails the status is 1
    and nothing has been written. *)
Theorem main_exit_status
    (parse_args : list string → parse_result) (E : process)
    (argv : list string) (w : world) :
  let exit := main_argv parse_args E argv w in
  (∀ exit_code, parse_args argv = ParserExit exit_code → exit = (exit_code, w))
  ∧ ∀ args,
      parse_args argv = Parsed args →
      let input := path_str (absolute_path E (input_file args)) in
      let out := path_str (absolute_path E (output args)) in
      (exit.1 = 0 ∨ exit.1 = 1)
      ∧ (exit.1 = 0
         ↔ is_Some (files w !! input)
           ∧ ∃ transcribed,
               whisper_base E input = Return transcribed
               ∧ (text_to_speech (tts E) (process_id E)
                    (Py.join delimiter
                       (imap (segment_result (translation E) (language args))
                          (split_for_translation transcribed)))
                    out (language args) w).1 = Return ())
      ∧ (files w !! input = None → exit = (1, w))
      ∧ (raises (whisper_base E input) → exit = (1, w)).
Proof.
  intros exit. split.
  { intros exit_code Hparse. unfold exit, main_argv. by rewrite Hparse. }
  intros args Hparse input out. unfold exit, main_argv. rewrite Hparse.
  unfold main. fold input out.
  rewrite transcribe_audio_run.
  destruct (files w !! input) as [c|] eqn:Hinput.
  - rewrite bool_decide_true by eauto. cbn [negb].
    destruct (whisper_base E input) as [t|e]; simpl.
    + rewrite translate_text_spec.
      destruct (text_to_speech _ _ _ _ _ _) as [[[]|e] w'] eqn:Hrun; simpl.
      * split_and!; [by left| |done|by intros [e He]].
        split; [|done]. intros _. split; [eauto|]. exists t. by rewrite Hrun.
      * split_and!; [by right| |done|by intros [e' He']].
        split; [done|]. intros (_ & t' & [= <-] & Hret).
        by rewrite Hrun in Hret.
    + split_and!; [by right| |done|done].
      split; [done|]. by intros (_ & t & ? & _).
  - rewrite bool_decide_false by (by intros [c Hc]). cbn [negb fst].
    split_and!; [by right| |done|done].
    split; [done|]. by intros ([c Hc] & _).
Qed.

Lemma main_exit_status_witness :
  main_argv (λ _, ParserExit 2) echo_process ["--speed"; "2"] empty_world
  = (2, empty_world).
Proof.
  apply (proj1 (main_exit_status (λ _, ParserExit 2) echo_process
                  ["--speed"; "2"] empty_world) 2).
  reflexivity.
Defined.

(** X15.  End to end: when the input file exists, its transcript is
    translated to a non-empty text of at most 5000 characters, that text
    is synthesized and the system does not refuse the rename to the
    output path, [main] exits with status 0 and the output path,
    resolved against the working directory, holds the audio of the
    translated text; the only steps are saving [temp_0.mp3] and renaming
    it.  If the system refuses the rename (a missing target directory,
    say), [main] exits with status 1 and [temp_0.mp3] stays. *)
Theorem main_single_chunk
    (E : process) (args : arguments) (w : world)
    (transcribed translated : string) (a : audio) :
  let input := path_str (absolute_path E (input_file args)) in
  let out := path_str (absolute_path E (output args)) in
  is_Some (files w !! input) →
  whisper_base E input = Return transcribed →
  translate_text (translation E) transcribed (language args) = Return translated →
  translated ≠ "" →
  String.length translated ≤ max_chunk_size →
  gtts (tts E) 0 translated (language args) = Return a →
  match rename_error (tts E) "temp_0.mp3" out with
  | None =>
      (main E args w).1 = 0
      ∧ files (main E args w).2 !! out = Some (Audio a)
      ∧ trace (main E args w).2
        = trace w ++ [SaveChunk "temp_0.mp3"; Rename "temp_0.mp3" out]
  | Some _ =>
      (main E args w).1 = 1
      ∧ files (main E args w).2 !! "temp_0.mp3" = Some (Audio a)
      ∧ trace (main E args w).2 = trace w ++ [SaveChunk "temp_0.mp3"]
  end.
Proof.
  intros input out Hinput Htext Htranslated Hne Hlen Hgtts.
  unfold main. fold input out. rewrite transcribe_audio_run.
  rewrite bool_decide_true by done. cbn [negb].
  rewrite Htext. simpl. rewrite Htranslated.
  unfold text_to_speech.
  rewrite (synthesis_single _ _ _ _ _ _ translated)
    by (by apply chunks_of_short).
  rewrite Hgtts.
  change (temp_file_name CommandLine (process_id E) 0) with "temp_0.mp3".
  destruct (rename_error (tts E) "temp_0.mp3" out);
    cbn [fst snd files trace]; (split_and!; [done| |done]);
    apply lookup_dir_insert_same.
Qed.

Lemma main_single_chunk_witness :
  (main echo_process
     {| input_file := "in.wav"; output := "translated_audio.mp3";
        language := "es"; verbose := false |}
     {| files := {| dir_cwd := "/work";
                    entries := {["/work/in.wav" := Audio []]} |};
        trace := [] |}).1
  = 0.
Proof.
  refine (proj1 (main_single_chunk echo_process _ _
            "Hello world. This is a test." "HELLO WORLD. THIS IS A TEST."
            (String.list_byte_of_string "HELLO WORLD. THIS IS A TEST.")
            _ _ _ _ _ _)).
  - vm_compute. by eexists.
  - reflexivity.
  - reflexivity.
  - discriminate.
  - vm_compute. lia.
  - reflexivity.
Defined.

(** X16.  When the transcript is empty or made of blank sentences only
    (silence), [main] exits with status 1 and writes nothing: the
    translated text is empty and the synthesis raises [IndexError]. *)
Theorem main_silence
    (E : process) (args : arguments) (w : world) (transcribed : string) :
  let input := path_str (absolute_path E (input_file args)) in
  is_Some (files w !! input) →
  whisper_base E input = Return transcribed →
  (∀ piece, piece ∈ Py.split transcribed delimiter →
     Py.whitespace_only piece = true) →
  main E args w = (1, w).
Proof.
  intros input Hinput Htext Hblank.
  unfold main. fold input. rewrite transcribe_audio_run.
  rewrite bool_decide_true by done. cbn [negb].
  rewrite Htext. simpl.
  pose proof (translate_text_async_blank (translation E) transcribed
                (language args) Hblank) as Hempty.
  unfold translate_text_async in Hempty. rewrite Hempty.
  unfold text_to_speech.
  by rewrite (synthesis_empty _ _ _ _ _ _ _ chunks_of_empty).
Qed.

Lemma main_silence_witness :
  main {| cwd := "/work"; process_id := 7;
          whisper_base := λ _, Return "";
          translation := uppercase_stub; tts := echo_backends |}
    {| input_file := "/data/in.wav"; output := "out.mp3";
       language := "es"; verbose := true |}
    {| files := {["/data/in.wav" := Audio []]}; trace := [] |}
  = (1, {| files := {["/data/in.wav" := Audio []]}; trace := [] |}).
Proof.
  apply (main_silence _ _ _ "").
  - vm_compute. by eexists.
  - reflexivity.
  - intros piece Hin. vm_compute in Hin.
    repeat (apply elem_of_cons in Hin as [->|Hin]; [reflexivity|]).
    by apply elem_of_nil in Hin.
Defined.

Lemma Path_root_prefix s :
  path_root (Path s) = "" ∨ String.prefix "/" (path_root (Path s)) = true.
Proof.
  unfold Path. cbn [path_root].
  destruct (Py.startswith s "//" && negb (Py.startswith s "///"));
    [by right|].
  destruct (Py.startswith s "/"); [by right|by left].
Qed.

Lemma absolute_path_str_slash p :
  path_root p = "" ∨ String.prefix "/" (path_root p) = true →
  is_absolute p = true →
  Py.startswith (path_str p) "/" = true.
Proof.
  unfold is_absolute, path_str, Py.startswith.
  intros [Hnone|Hslash] Habs; [by rewrite Hnone in Habs|].
  destruct (path_root p) as [|c root]; [done|]. by apply prefix_app.
Qed.

(** X17.  [main] resolves the input and output names against the
    working directory: an absolute name is used as it is, a relative one
    is appended, component by component, to the working directory; when
    the working directory is absolute the resulting name begins with
    [/]. *)
Theorem absolute_path_resolution (E : process) (name : string) :
  (is_absolute (Path name) = true → absolute_path E name = Path name)
  ∧ (is_absolute (Path name) = false →
     path_root (absolute_path E name) = path_root (Path (cwd E))
     ∧ path_parts (absolute_path E name)
       = path_parts (Path (cwd E)) ++ path_parts (Path name))
  ∧ (is_absolute (Path (cwd E)) = true →
     is_absolute (absolute_path E name) = true
     ∧ Py.startswith (path_str (absolute_path E name)) "/" = true).
Proof.
  unfold absolute_path, joinpath.
  destruct (is_absolute (Path name)) eqn:Hname; cbn [negb].
  - split_and!; [done|done|]. intros _. split; [done|].
    apply absolute_path_str_slash; [apply Path_root_prefix|done].
  - split_and!; [done|done|]. intros Hcwd. split; [done|].
    apply absolute_path_str_slash; [apply (Path_root_prefix (cwd E))|done].
Qed.

